(** * Exposure metering engine of the film camera light meter

    A shallow embedding of the metering code of [App.js] (the variant with
    AE-lock, film presets and per-channel histograms, and the earlier
    variant that draws the zone overlay), with the properties the
    specification states about it.

    Numbers.  The program computes on JavaScript numbers.  They are
    modelled as real numbers extended with the three special values the
    program can produce: [+Infinity], [-Infinity] and [NaN].  Finite
    arithmetic is exact in the model: rounding, overflow and the sign of
    zero of IEEE doubles are not represented.  The special values enter
    through [Math.log2] (of zero and of negative numbers) and through the
    literals [Infinity] and [-Infinity] of the source. *)

From Stdlib Require Import Reals Lra Lia ZArith List Bool.
From Stdlib Require Import Strings.String Strings.Byte.
From Stdlib Require Import Sorted.
Import ListNotations.

Local Open Scope R_scope.

(** ** JavaScript numbers *)

Module Js.

Inductive num : Type :=
| Fin (r : R)
| PosInf
| NegInf
| NaN.

(** [a + b] *)
Definition add (a b : num) : num :=
  match a, b with
  | NaN, _ | _, NaN => NaN
  | Fin x, Fin y => Fin (x + y)
  | PosInf, NegInf | NegInf, PosInf => NaN
  | PosInf, _ | _, PosInf => PosInf
  | NegInf, _ | _, NegInf => NegInf
  end.

(** [- a] *)
Definition neg (a : num) : num :=
  match a with
  | Fin x => Fin (- x)
  | PosInf => NegInf
  | NegInf => PosInf
  | NaN => NaN
  end.

(** [a - b] *)
Definition sub (a b : num) : num := add a (neg b).

(** Sign of a number that is not [NaN]: [Lt] negative, [Eq] zero,
    [Gt] positive. *)
Definition sign (x : R) : comparison :=
  match total_order_T x 0 with
  | inleft (left _) => Lt
  | inleft (right _) => Eq
  | inright _ => Gt
  end.

(** An infinity times a finite number [x]; [pos] tells the sign of the
    infinity. *)
Definition scale_inf (pos : bool) (x : R) : num :=
  match sign x with
  | Eq => NaN
  | Gt => if pos then PosInf else NegInf
  | Lt => if pos then NegInf else PosInf
  end.

(** [a * b] *)
Definition mul (a b : num) : num :=
  match a, b with
  | NaN, _ | _, NaN => NaN
  | Fin x, Fin y => Fin (x * y)
  | PosInf, Fin y => scale_inf true y
  | NegInf, Fin y => scale_inf false y
  | Fin x, PosInf => scale_inf true x
  | Fin x, NegInf => scale_inf false x
  | PosInf, PosInf | NegInf, NegInf => PosInf
  | PosInf, NegInf | NegInf, PosInf => NegInf
  end.

(** [Math.abs(a)] *)
Definition abs (a : num) : num :=
  match a with
  | Fin x => Fin (Rabs x)
  | PosInf | NegInf => PosInf
  | NaN => NaN
  end.

(** [a < b]; every comparison with [NaN] is false. *)
Definition lt (a b : num) : bool :=
  match a, b with
  | NaN, _ | _, NaN => false
  | Fin x, Fin y => if Rlt_dec x y then true else false
  | _, NegInf => false
  | NegInf, _ => true
  | PosInf, _ => false
  | Fin _, PosInf => true
  end.

(** [a <= b] *)
Definition le (a b : num) : bool :=
  match a, b with
  | NaN, _ | _, NaN => false
  | Fin x, Fin y => if Rle_dec x y then true else false
  | NegInf, _ => true
  | _, PosInf => true
  | _, NegInf => false
  | PosInf, _ => false
  end.

(** [a >= b] *)
Definition ge (a b : num) : bool := le b a.

(** [Math.log2(x)] of a finite [x]: the logarithm for [x > 0],
    [-Infinity] at zero, [NaN] below zero. *)
Definition log2 (x : R) : num :=
  match sign x with
  | Gt => Fin (ln x / ln 2)
  | Eq => NegInf
  | Lt => NaN
  end.

(** [Math.pow(2, x)] of a finite [x]. *)
Definition pow2 (x : R) : R := Rpower 2 x.

(** [Math.floor(x)] and [Math.round(x)] of a finite [x]; [Math.round]
    rounds halves up. *)
Definition floor (x : R) : Z := Zfloor x.
Definition round (x : R) : Z := Zfloor (x + / 2).

End Js.

Abbreviation num := Js.num.
Abbreviation Fin := Js.Fin.
Abbreviation PosInf := Js.PosInf.
Abbreviation NegInf := Js.NegInf.
Abbreviation NaN := Js.NaN.

(** ** Constants and tables of [App.js] *)

(** [standardShutterSpeeds], in seconds. *)
Definition standardShutterSpeeds : list R :=
  [1 / 1000; 1 / 500; 1 / 250; 1 / 125; 1 / 60; 1 / 30; 1 / 15; 1 / 8;
   1 / 4; 1 / 2; 1].

(** [standardApertures], as f-numbers. *)
Definition standardApertures : list R :=
  [1.4; 2; 2.8; 4; 5.6; 8; 11; 16; 22].

(** One entry of the EV table: [{ shutter, aperture, ev }]. *)
Module Candidate.
Record t : Type := make { shutter : R; aperture : R; ev : num }.
End Candidate.

(** [shutterApertureEV]: for every shutter speed, in order, one entry per
    aperture, in order, with [ev = Math.log2((a * a) / s)]. *)
Definition shutterApertureEV : list Candidate.t :=
  flat_map
    (fun s =>
       map (fun a => Candidate.make s a (Js.log2 ((a * a) / s)))
           standardApertures)
    standardShutterSpeeds.

(** The digital value of the 18% gray card. *)
Definition referenceGray : R := 128.

(** The result of a resolver, and the reading the application keeps in its
    [exposure] state.  A resolver's result has no [smoothedEV] property;
    the metering tick adds it. *)
Module Exposure.
Record t : Type := make {
  shutterSpeed : R;
  aperture : R;
  effectiveEV : num;
  smoothedEV : option num;
  evDifference : num
}.
End Exposure.

(** ** The EV calculator and the exposure resolvers

    [referenceEV] is 7 in the variant with AE-lock and 6 in the variant
    with the zone overlay; the functions are the same in both, so the
    constant is a parameter of this section. *)

Section Engine.

Variable referenceEV : R.

(** [calculateEffectiveEV(avgBrightness, iso, compensation,
    calibrationFactor)].  The divisions are by the nonzero constants
    [referenceGray] and 100, so their results are finite. *)
Definition calculateEffectiveEV
  (avgBrightness iso compensation calibrationFactor : R) : num :=
  if Rle_dec avgBrightness 0 then NegInf
  else
    let measuredEV :=
      Js.add
        (Js.add (Fin referenceEV)
                (Js.log2 ((avgBrightness * calibrationFactor) / referenceGray)))
        (Js.log2 (iso / 100)) in
    Js.add measuredEV (Fin compensation).

(** The body of the [forEach] of both resolvers: the state is
    [(closestCandidate, minDiff)]. *)
Definition scanCandidate (effectiveEV : num)
  (st : option Candidate.t * num) (candidate : Candidate.t)
  : option Candidate.t * num :=
  let diff := Js.abs (Js.sub (Candidate.ev candidate) effectiveEV) in
  if Js.lt diff (snd st) then (Some candidate, diff) else st.

(** The scan, from [closestCandidate = null, minDiff = Infinity]. *)
Definition closestCandidate (effectiveEV : num)
  (candidates : list Candidate.t) : option Candidate.t :=
  fst (fold_left (scanCandidate effectiveEV) candidates (None, PosInf)).

(** [c.shutter === chosenShutter] and [c.aperture === chosenAperture]. *)
Definition sameNumber (x y : R) : bool :=
  if Req_dec_T x y then true else false.

Definition shutterCandidates (chosenShutter : R) : list Candidate.t :=
  filter (fun c => sameNumber (Candidate.shutter c) chosenShutter)
         shutterApertureEV.

Definition apertureCandidates (chosenAperture : R) : list Candidate.t :=
  filter (fun c => sameNumber (Candidate.aperture c) chosenAperture)
         shutterApertureEV.

(** [closestCandidate ? closestCandidate.ev - effectiveEV : 0] *)
Definition evDifferenceOf (closest : option Candidate.t) (effectiveEV : num)
  : num :=
  match closest with
  | Some c => Js.sub (Candidate.ev c) effectiveEV
  | None => Fin 0
  end.

(** [calculateExposureShutterPriority] *)
Definition calculateExposureShutterPriority
  (avgBrightness iso compensation chosenShutter calibrationFactor : R)
  : Exposure.t :=
  let effectiveEV :=
    calculateEffectiveEV avgBrightness iso compensation calibrationFactor in
  let candidates := shutterCandidates chosenShutter in
  let closest := closestCandidate effectiveEV candidates in
  Exposure.make
    chosenShutter
    (match closest with Some c => Candidate.aperture c | None => 0 end)
    effectiveEV
    None
    (evDifferenceOf closest effectiveEV).

(** [calculateExposureAperturePriority] *)
Definition calculateExposureAperturePriority
  (avgBrightness iso compensation chosenAperture calibrationFactor : R)
  : Exposure.t :=
  let effectiveEV :=
    calculateEffectiveEV avgBrightness iso compensation calibrationFactor in
  let candidates := apertureCandidates chosenAperture in
  let closest := closestCandidate effectiveEV candidates in
  Exposure.make
    (match closest with Some c => Candidate.shutter c | None => 0 end)
    chosenAperture
    effectiveEV
    None
    (evDifferenceOf closest effectiveEV).

(** ** The metering tick: smoother, AE-lock and classifier *)

(** The settings the tick reads. *)
Record Config : Type := {
  iso : R;
  compensation : R;
  priorityMode : string;
  chosenAperture : R;
  chosenShutter : R;
  calibrationFactor : R;
  smoothingFactor : R
}.

(** What the component keeps between ticks: the [aeLocked] state, the refs
    [lockedEVRef] and [smoothedEVRef] ([None] is [null]), and the
    [exposure], [exposureWarning] and [error] states it renders. *)
Record AppState : Type := {
  aeLocked : bool;
  lockedEVRef : option num;
  smoothedEVRef : option num;
  exposure : Exposure.t;
  exposureWarning : string;
  error : string
}.

(** The state of a freshly mounted component. *)
Definition initialState : AppState := {|
  aeLocked := false;
  lockedEVRef := None;
  smoothedEVRef := None;
  exposure := Exposure.make 0 0 (Fin 0) (Some (Fin 0)) (Fin 0);
  exposureWarning := "";
  error := ""
|}.

(** [handleAeLock]: the two-state toggle. *)
Definition handleAeLock (st : AppState) : AppState :=
  if aeLocked st then
    {| aeLocked := false;
       lockedEVRef := None;
       smoothedEVRef := smoothedEVRef st;
       exposure := exposure st;
       exposureWarning := exposureWarning st;
       error := error st |}
  else
    {| aeLocked := true;
       lockedEVRef := Some (Exposure.effectiveEV (exposure st));
       smoothedEVRef := smoothedEVRef st;
       exposure := exposure st;
       exposureWarning := exposureWarning st;
       error := error st |}.

(** The update of [smoothedEVRef.current] by one sample [currentEV]. *)
Definition smoothEV (smoothingFactor : R) (current : option num)
  (currentEV : num) : num :=
  match current with
  | None => currentEV
  | Some smoothed =>
      Js.add (Js.mul smoothed (Fin (1 - smoothingFactor)))
             (Js.mul currentEV (Fin smoothingFactor))
  end.

(** The chain of comparisons on [exp.evDifference] that sets
    [exposureWarning]. *)
Definition classifyExposure (evDifference : num) : string :=
  if Js.le evDifference (Fin (-1)) then
    "Severely underexposed, increase aperture or ISO significantly."
  else if Js.le evDifference (Fin (-0.6)) then
    "Moderately underexposed, consider increasing aperture or ISO."
  else if Js.le evDifference (Fin (-0.3)) then
    "Slightly underexposed, fine-tune settings."
  else if Js.ge evDifference (Fin 1) then
    "Severely overexposed, reduce aperture or ISO significantly."
  else if Js.ge evDifference (Fin 0.6) then
    "Moderately overexposed, consider reducing aperture or ISO."
  else if Js.ge evDifference (Fin 0.3) then
    "Slightly overexposed, fine-tune settings."
  else "".

(** The AE-lock override of the tick:
    [if (aeLocked && lockedEVRef.current !== null)
       exp.effectiveEV = lockedEVRef.current]. *)
Definition applyAeLock (st : AppState) (exp : Exposure.t) : Exposure.t :=
  match aeLocked st, lockedEVRef st with
  | true, Some locked =>
      Exposure.make (Exposure.shutterSpeed exp) (Exposure.aperture exp)
                    locked
                    (Exposure.smoothedEV exp) (Exposure.evDifference exp)
  | _, _ => exp
  end.

(** The part of the tick that follows the resolver: smoothing, AE-lock
    override, [setExposure] and classification. *)
Definition publishReading (smoothingFactor : R) (st : AppState)
  (exp : Exposure.t) : AppState :=
  let currentEV := Exposure.effectiveEV exp in
  let smoothed := smoothEV smoothingFactor (smoothedEVRef st) currentEV in
  let exp1 :=
    Exposure.make (Exposure.shutterSpeed exp) (Exposure.aperture exp)
                  (Exposure.effectiveEV exp) (Some smoothed)
                  (Exposure.evDifference exp) in
  let exp2 := applyAeLock st exp1 in
  {| aeLocked := aeLocked st;
     lockedEVRef := lockedEVRef st;
     smoothedEVRef := Some smoothed;
     exposure := exp2;
     exposureWarning := classifyExposure (Exposure.evDifference exp2);
     error := "" |}.

(** The resolver call of the tick:
    [if (priorityMode === 'aperture') ... else ...]. *)
Definition resolve (cfg : Config) (avgBrightness : R)
  : Exposure.t :=
  if String.eqb (priorityMode cfg) "aperture" then
    calculateExposureAperturePriority avgBrightness (iso cfg)
      (compensation cfg) (chosenAperture cfg) (calibrationFactor cfg)
  else
    calculateExposureShutterPriority avgBrightness (iso cfg)
      (compensation cfg) (chosenShutter cfg) (calibrationFactor cfg).

(** The effectiveEV both resolvers compute on the settings of a tick. *)
Definition liveEV (cfg : Config) (avgBrightness : R) : num :=
  calculateEffectiveEV avgBrightness (iso cfg) (compensation cfg)
    (calibrationFactor cfg).

(** One run of the interval callback on a ready video frame whose metered
    brightness is [avgBrightness]. *)
Definition meteringTick (cfg : Config) (st : AppState) (avgBrightness : R)
  : AppState :=
  if Rlt_dec avgBrightness 5 then
    {| aeLocked := aeLocked st;
       lockedEVRef := lockedEVRef st;
       smoothedEVRef := smoothedEVRef st;
       exposure := exposure st;
       exposureWarning := exposureWarning st;
       error := "Extremely dark, increase ISO/aperture." |}
  else if Rlt_dec 250 avgBrightness then
    {| aeLocked := aeLocked st;
       lockedEVRef := lockedEVRef st;
       smoothedEVRef := smoothedEVRef st;
       exposure := exposure st;
       exposureWarning := exposureWarning st;
       error := "Extremely bright! Reduce ISO or aperture." |}
  else
    let exp := resolve cfg avgBrightness in
    publishReading (smoothingFactor cfg) st exp.



End Engine.

(** ** The histogram engine *)

(** One pixel of [ImageData.data]: four bytes, R, G, B and A.  The loop
    of [drawHistogram] advances by four bytes, so entry [p] of a pixel
    list stands for the bytes [4p .. 4p+3] and [i / 4] is [p]. *)
Record Pixel : Type := {
  red : byte;
  green : byte;
  blue : byte;
  alpha : byte
}.

(** The number a byte of the buffer reads as. *)
Definition channel (b : byte) : Z := Z.of_N (Byte.to_N b).

(** [Math.floor(0.299 * data[i] + 0.587 * data[i + 1] + 0.114 * data[i + 2])] *)
Definition brightnessOf (p : Pixel) : Z :=
  Js.floor (0.299 * IZR (channel (red p))
            + 0.587 * IZR (channel (green p))
            + 0.114 * IZR (channel (blue p))).

(** [Math.min(Math.round(brightness * Math.pow(2, compensation)), 255)] *)
Definition adjustedBrightness (compensation : R) (p : Pixel) : Z :=
  let adjusted := IZR (brightnessOf p) * Js.pow2 compensation in
  Z.min (Js.round adjusted) 255.

(** Adds one to slot [k] of a count array. *)
Fixpoint bump (k : nat) (histogram : list nat) {struct histogram}
  : list nat :=
  match histogram, k with
  | [], _ => []
  | c :: rest, O => S c :: rest
  | c :: rest, S k' => c :: bump k' rest
  end.

(** [histogram[k]++].  For a [k] that is not a slot of the array
    JavaScript stores [NaN] under a new property and leaves the slots as
    they are; the model keeps the slots. *)
Definition increment (histogram : list nat) (k : Z) : list nat :=
  if ((0 <=? k)%Z && (k <? Z.of_nat (List.length histogram))%Z)%bool
  then bump (Z.to_nat k) histogram
  else histogram.

(** [new Array(256).fill(0)] *)
Definition emptyHistogram : list nat := repeat O 256.

(** The loop over the buffer: the body runs on the pixels whose index is
    even, [(i / 4) % 2 === 0]. *)
Fixpoint scanPixels {A : Type} (body : A -> Pixel -> A) (pixelIndex : nat)
  (data : list Pixel) (acc : A) : A :=
  match data with
  | [] => acc
  | p :: rest =>
      scanPixels body (S pixelIndex) rest
        (if Nat.even pixelIndex then body acc p else acc)
  end.

(** The count array of the combined mode. *)
Definition combinedHistogram (compensation : R) (data : list Pixel)
  : list nat :=
  scanPixels (fun h p => increment h (adjustedBrightness compensation p))
             0 data emptyHistogram.

(** The three count arrays of the separate mode:
    [redHistogram], [greenHistogram], [blueHistogram]. *)
Definition separateHistograms (data : list Pixel)
  : list nat * list nat * list nat :=
  scanPixels
    (fun (h : list nat * list nat * list nat) p =>
       let '(r, g, b) := h in
       (increment r (channel (red p)),
        increment g (channel (green p)),
        increment b (channel (blue p))))
    0 data (emptyHistogram, emptyHistogram, emptyHistogram).



(** The sum of the slots of a count array. *)
Definition binTotal (histogram : list nat) : nat := list_sum histogram.

(** How many pixels of a buffer of [n] pixels have an even index. *)
Definition sampledCount (n : nat) : nat := Nat.div2 (S n).

(** ** The zone overlay *)

(** [zoneNumbers] *)
Definition zoneNumbers : list Z := [2; 3; 4; 5; 6; 7]%Z.

(** The marker of one zone: [gray * Math.pow(2, zone - 5)]. *)
Definition zoneBoundary (gray : R) (zone : Z) : R :=
  gray * Js.pow2 (IZR zone - 5).

(** [computedBoundaries] *)
Definition computedBoundaries : list R :=
  map (zoneBoundary referenceGray) zoneNumbers.

(** The callback that builds [boundaries]: a marker above 255 sets
    [clipped] and is replaced by 255.  The state is the flag and the
    markers mapped so far. *)
Definition clampBoundary (st : bool * list R) (b : R) : bool * list R :=
  if Rlt_dec 255 b then (true, snd st ++ [255])
  else (fst st, snd st ++ [b]).

(** The [map] over the computed markers, from [clipped = false]. *)
Definition clampBoundaries (computed : list R) : bool * list R :=
  fold_left clampBoundary computed (false, []).

(** [clipped] and [boundaries] after the map. *)
Definition clipped : bool := fst (clampBoundaries computedBoundaries).
Definition boundaries : list R := snd (clampBoundaries computedBoundaries).

(** ** Notions used in the statements *)

(** The real number the calculator computes when every logarithm is of a
    positive number. *)
Definition finiteEV (referenceEV avgBrightness iso compensation
  calibrationFactor : R) : R :=
  referenceEV
  + ln ((avgBrightness * calibrationFactor) / referenceGray) / ln 2
  + ln (iso / 100) / ln 2
  + compensation.

(** A candidate whose [ev] is a finite number. *)
Definition finiteCandidate (c : Candidate.t) : Prop :=
  exists r : R, Candidate.ev c = Fin r.

(** [Math.abs(candidate.ev - effectiveEV)] *)
Definition distance (effectiveEV : num) (c : Candidate.t) : num :=
  Js.abs (Js.sub (Candidate.ev c) effectiveEV).

(** What the scan state holds after the candidates [seen]. *)
Definition scanInvariant (e : R) (seen : list Candidate.t)
  (st : option Candidate.t * num) : Prop :=
  match fst st with
  | None => seen = [] /\ snd st = PosInf
  | Some c =>
      In c seen /\ snd st = distance (Fin e) c /\
      forall c' : Candidate.t, In c' seen ->
        Js.le (distance (Fin e) c) (distance (Fin e) c') = true
  end.

(** The lock is engaged on the value [locked]. *)
Definition lockedOn (locked : num) (st : AppState) : Prop :=
  aeLocked st = true /\ lockedEVRef st = Some locked /\
  Exposure.effectiveEV (exposure st) = locked.

(** The severity bands of the specification. *)
Inductive Severity : Type :=
| SevereUnderexposure
| ModerateUnderexposure
| SlightUnderexposure
| Balanced
| SlightOverexposure
| ModerateOverexposure
| SevereOverexposure.

(** The [exposureWarning] text the tick sets for each band. *)
Definition advisory (s : Severity) : string :=
  match s with
  | SevereUnderexposure =>
      "Severely underexposed, increase aperture or ISO significantly."
  | ModerateUnderexposure =>
      "Moderately underexposed, consider increasing aperture or ISO."
  | SlightUnderexposure => "Slightly underexposed, fine-tune settings."
  | Balanced => ""
  | SlightOverexposure => "Slightly overexposed, fine-tune settings."
  | ModerateOverexposure =>
      "Moderately overexposed, consider reducing aperture or ISO."
  | SevereOverexposure =>
      "Severely overexposed, reduce aperture or ISO significantly."
  end.

(** The pixels the loop counts from pixel index [start] on, in a buffer
    with [n] more pixels. *)
Definition sampledFrom (start n : nat) : nat :=
  List.length (filter Nat.even (seq start n)).

(** The count arrays keep their 256 slots. *)
Definition slots256 (h : list nat) : Prop := List.length h = 256%nat.


(** Settings for the examples: ISO 100, no compensation, aperture
    priority at f/2.8, calibration factor 1, smoothing factor 0.1. *)
Definition sampleConfig : Config := {|
  iso := 100;
  compensation := 0;
  priorityMode := "aperture";
  chosenAperture := 2.8;
  chosenShutter := 1 / 125;
  calibrationFactor := 1;
  smoothingFactor := 0.1
|}.


(** A first reading of brightness 128, then the lock, then a tick of
    brightness 64. *)
Definition firstReading : AppState := meteringTick 7 sampleConfig initialState 128.
Definition lockedReading : AppState := handleAeLock firstReading.


(** ** Further functions of [App.js] *)


Definition compensationSteps : list R :=
  [-3; -2.7; -2.3; -2; -1.7; -1.3; -1; -0.7; -0.3; 0; 0.3; 0.7; 1; 1.3;
   1.7; 2; 2.3; 2.7; 3].



(** [linearize]: an sRGB channel value to linear intensity.  The base of
    [Math.pow] is positive on the branch that takes the power. *)
Definition linearize (c : R) : R :=
  let c' := c / 255 in
  if Rle_dec c' 0.04045 then c' / 12.92
  else Rpower ((c' + 0.055) / 1.055) 2.4.

(** The luminance of one pixel in the loop of [computeBrightness]. *)
Definition luminance (p : Pixel) : R :=
  (0.2126 * linearize (IZR (channel (red p)))
   + 0.7152 * linearize (IZR (channel (green p)))
   + 0.0722 * linearize (IZR (channel (blue p)))) * 255.

(** What [computeBrightness] reads of the video element. *)
Record Video : Type := {
  readyState : Z;
  paused : bool;
  videoWidth : N;
  videoHeight : N
}.

(** The loop of [computeBrightness] over the pixels of the metering
    region and its result, [count ? total / count : 0]. *)
Definition averageLuminance (lum : Pixel -> R) (data : list Pixel) : R :=
  let sums :=
    fold_left (fun (acc : R * nat) p => (fst acc + lum p, S (snd acc)))
              data (0, O) in
  match snd sums with
  | O => 0
  | S _ => fst sums / INR (snd sums)
  end.

(** [computeBrightness] on the pixels [regionData] that [getImageData]
    returns for the metering region. *)
Definition computeBrightness (video : Video) (regionData : list Pixel) : R :=
  if (negb (readyState video =? 4)%Z || paused video)%bool then 0
  else if ((videoWidth video =? 0)%N || (videoHeight video =? 0)%N)%bool
  then 0
  else averageLuminance luminance regionData.

(** [getSceneDescription] *)
Definition getSceneDescription (effectiveEV : num) : string :=
  if Js.ge effectiveEV (Fin 15) then "Bright outdoor (Sunny)"
  else if Js.ge effectiveEV (Fin 12) then "Outdoor overcast / bright indoor"
  else if Js.ge effectiveEV (Fin 9) then "Indoor (normal lighting)"
  else if Js.ge effectiveEV (Fin 7) then "Dim indoor / night street"
  else "Very low light".


Definition setCalibrationFactor (cfg : Config) (factor : R) : Config := {|
  iso := iso cfg;
  compensation := compensation cfg;
  priorityMode := priorityMode cfg;
  chosenAperture := chosenAperture cfg;
  chosenShutter := chosenShutter cfg;
  calibrationFactor := factor;
  smoothingFactor := smoothingFactor cfg
|}.


(** The difference the meter page colours the EV line by,
    [Math.abs(exposure.smoothedEV - exposure.effectiveEV)]; a missing
    [smoothedEV] is [undefined] and makes the difference [NaN]. *)
Definition displayedDifference (exposure : Exposure.t) : num :=
  match Exposure.smoothedEV exposure with
  | Some s => Js.abs (Js.sub s (Exposure.effectiveEV exposure))
  | None => NaN
  end.

(** [exposureWarningColor] of the meter page. *)
Definition exposureWarningColor (exposure : Exposure.t) : string :=
  if Js.ge (displayedDifference exposure) (Fin 0.6) then "red"
  else if Js.ge (displayedDifference exposure) (Fin 0.3) then "orange"
  else "green".

(** The denominator the meter page prints for a shutter speed between 0
    and 1, [Math.round(1 / shutterSpeed)]. *)
Definition shutterDenominator (shutterSpeed : R) : Z :=
  Js.round (1 / shutterSpeed).

(** *** Drawing the histogram *)

Definition histWidth : R := 320.
Definition histHeight : R := 150.
Definition scaleX : R := histWidth / 256.

(** [Math.max(...histogram) || 1] of a count array (which has 256
    slots). *)
Definition maxCount (histogram : list nat) : nat :=
  match list_max histogram with
  | O => 1%nat
  | S m => S m
  end.

(** [(histogram[i] / maxCount) * histHeight] *)
Definition binHeight (histogram : list nat) (i : nat) : R :=
  (INR (nth i histogram O) / INR (maxCount histogram)) * histHeight.

(** The arguments of a [fillRect]. *)
Record Rect : Type := {
  rectX : R;
  rectY : R;
  rectWidth : R;
  rectHeight : R
}.

(** The bar of bin [i] in the combined mode. *)
Definition combinedBar (histogram : list nat) (i : nat) : Rect := {|
  rectX := INR i * scaleX;
  rectY := histHeight - binHeight histogram i;
  rectWidth := scaleX;
  rectHeight := binHeight histogram i
|}.

(** The bar of bin [i] of a channel in the separate mode; [slice] is 0
    for red, 1 for green and 2 for blue. *)
Definition sliceWidth : R := histWidth / 3.

Definition channelBar (slice : nat) (histogram : list nat) (i : nat) : Rect := {|
  rectX := INR slice * sliceWidth + (INR i / 256) * sliceWidth;
  rectY := histHeight - binHeight histogram i;
  rectWidth := sliceWidth / 256;
  rectHeight := binHeight histogram i
|}.

(** [xBoundaries] of the zone overlay. *)
Definition xBoundaries : list R := map (fun b => b * scaleX) boundaries.

(** *** The variant with the zone overlay *)

Module ZoneVariant.

(** The luminance of [computeBrightness] in this variant: the weights
    applied to the channel values directly. *)
Definition luminance (p : Pixel) : R :=
  0.2126 * IZR (channel (red p)) + 0.7152 * IZR (channel (green p))
  + 0.0722 * IZR (channel (blue p)).

Definition computeBrightness (video : Video) (regionData : list Pixel) : R :=
  if (negb (readyState video =? 4)%Z || paused video)%bool then 0
  else if ((videoWidth video =? 0)%N || (videoHeight video =? 0)%N)%bool
  then 0
  else averageLuminance luminance regionData.

(** The warning of the tick of this variant. *)
Definition exposureWarningOf (evDifference : num) : string :=
  if Js.lt (Fin 1) (Js.abs evDifference) then
    "Exposure out of range! Consider adjusting aperture or ISO."
  else "".

(** [exposureWarningColor] of this variant. *)
Definition exposureWarningColor (exposure : Exposure.t) : string :=
  if Js.ge (displayedDifference exposure) (Fin 2) then "red"
  else if Js.ge (displayedDifference exposure) (Fin 1) then "orange"
  else "green".

End ZoneVariant.

(** *** Film presets *)

(** One entry of [filmPresets]. *)
Module FilmPreset.
Record t : Type := make {
  calibrationFactor : R;
  overExposureThreshold : R;
  underExposureThreshold : R;
  recommendedCompensation : R;
  description : string
}.
End FilmPreset.

(** [filmPresets], keyed by the name of the film. *)
Definition filmPresets : list (string * FilmPreset.t) :=
  [("Kodak Portra 400",
    FilmPreset.make 0.92 250 10 0.3
      "Warm tones, excellent skin rendition, slight contrast boost.");
   ("Ilford HP5",
    FilmPreset.make 0.85 245 15 0.0
      "Classic black & white film with moderate contrast.");
   ("Fuji Superia X-TRA 400",
    FilmPreset.make 0.88 248 12 0.2
      "Versatile color film delivering vibrant hues with moderate contrast.");
   ("Kodak Tri-X 400",
    FilmPreset.make 0.87 240 18 0.0
      "High contrast black & white film, forgiving of slight exposure errors.");
   ("Kodak Portra 160",
    FilmPreset.make 0.93 255 8 0.2
      "Low ISO film with fine grain and natural color reproduction.");
   ("Fujifilm Pro 400H",
    FilmPreset.make 0.90 252 10 0.1
      "Soft contrast and pastel tones, ideal for portrait photography.");
   ("Kodak Ektar 100",
    FilmPreset.make 0.95 255 5 0.2
      "Highly saturated, vivid color film with fine grain.");
   ("Fujifilm Velvia 50",
    FilmPreset.make 0.94 253 6 0.4
      "High contrast and vibrant color slide film, excellent for landscapes.");
   ("Fujifilm Provia 100F",
    FilmPreset.make 0.91 250 8 0.1
      "Slide film with natural color rendition and fine grain.");
   ("Kodak Gold 200",
    FilmPreset.make 0.93 248 12 0.1
      "Budget color negative film with warm tones and moderate saturation.");
   ("Ilford Delta 3200",
    FilmPreset.make 0.86 240 20 0.0
      "High speed black & white film, ideal for low light with distinctive grain.");
   ("AgfaPhoto Vista Plus 200",
    FilmPreset.make 0.92 250 10 0.0
      "Affordable color negative film with balanced contrast and color.");
   ("Cinestill 800T",
    FilmPreset.make 0.89 247 15 0.2
      "Tungsten-balanced film for night photography with a unique halation effect.");
   ("Lomography Color Negative 400",
    FilmPreset.make 0.90 250 10 0.0
      "Creative color negative film with saturated colors and soft contrast.");
   ("Fujifilm Natura 1600",
    FilmPreset.make 0.88 245 15 0.0
      "High speed color film with natural tones in low light conditions.");
   ("Ilford Pan F Plus 50",
    FilmPreset.make 0.95 255 5 0.2
      "Low ISO black & white film with extremely fine grain and high resolution.");
   ("Rollei Retro 80S",
    FilmPreset.make 0.90 250 10 0.0
      "High contrast black & white film known for its unique tonality.")]%string.

(** [filmPresets[name]] for the own keys of the object literal; [None]
    when [name] is none of them.  The select that reads the table offers
    its keys and ['custom'] only. *)
Fixpoint lookupPreset (presets : list (string * FilmPreset.t)) (name : string)
  : option FilmPreset.t :=
  match presets with
  | [] => None
  | (key, preset) :: rest =>
      if String.eqb key name then Some preset else lookupPreset rest name
  end.

(** The settings the film preset select writes, besides the resolver
    settings: the name of the preset and the two thresholds of the
    histogram. *)
Record Settings : Type := {
  config : Config;
  filmPreset : string;
  overExposureThreshold : R;
  underExposureThreshold : R
}.

(** [setCompensation] on the resolver settings. *)
Definition setCompensation (cfg : Config) (value : R) : Config := {|
  iso := iso cfg;
  compensation := value;
  priorityMode := priorityMode cfg;
  chosenAperture := chosenAperture cfg;
  chosenShutter := chosenShutter cfg;
  calibrationFactor := calibrationFactor cfg;
  smoothingFactor := smoothingFactor cfg
|}.

(** The [onChange] of the film preset select, on the values the select
    offers: ['custom'] and the keys of [filmPresets].  The result is
    [None] for any other value, which the select never sends. *)
Definition selectFilmPreset (st : Settings) (value : string)
  : option Settings :=
  if String.eqb value "custom" then
    Some {| config := config st;
            filmPreset := value;
            overExposureThreshold := overExposureThreshold st;
            underExposureThreshold := underExposureThreshold st |}
  else
    match lookupPreset filmPresets value with
    | Some preset =>
        Some {| config :=
                  setCompensation
                    (setCalibrationFactor (config st)
                       (FilmPreset.calibrationFactor preset))
                    (FilmPreset.recommendedCompensation preset);
                filmPreset := value;
                overExposureThreshold :=
                  FilmPreset.overExposureThreshold preset;
                underExposureThreshold :=
                  FilmPreset.underExposureThreshold preset |}
    | None => None
    end.

(** ** Further notions used in the statements *)

(** The entry of the table for a shutter speed and an aperture. *)
Definition entry (s a : R) : Candidate.t :=
  Candidate.make s a (Js.log2 ((a * a) / s)).



(** [c] is the first candidate of the list that no candidate is closer
    than: the ones before it are strictly farther from [e], the ones after
    it are not closer. *)
Definition firstClosest (e : R) (candidates : list Candidate.t)
  (c : Candidate.t) : Prop :=
  exists before after : list Candidate.t,
    candidates = before ++ c :: after /\
    (forall c' : Candidate.t, In c' before ->
       Js.lt (distance (Fin e) c) (distance (Fin e) c') = true) /\
    (forall c' : Candidate.t, In c' after ->
       Js.le (distance (Fin e) c) (distance (Fin e) c') = true).

(** What the scan state holds after the candidates [seen], for the
    first of the closest. *)
Definition scanFirst (e : R) (seen : list Candidate.t)
  (st : option Candidate.t * num) : Prop :=
  match fst st with
  | None => seen = [] /\ snd st = PosInf
  | Some c => firstClosest e seen c /\ snd st = distance (Fin e) c
  end.



(** What happens on the meter page: a tick of the interval with the
    settings in force and the metered brightness, or a press of the
    AE-lock button. *)
Inductive Event : Type :=
| TickEvent (cfg : Config) (avgBrightness : R)
| AeLockEvent.

Definition handleEvent (referenceEV : R) (st : AppState) (ev : Event)
  : AppState :=
  match ev with
  | TickEvent cfg avgBrightness => meteringTick referenceEV cfg st avgBrightness
  | AeLockEvent => handleAeLock st
  end.

Definition runEvents (referenceEV : R) (st : AppState) (events : list Event)
  : AppState :=
  fold_left (handleEvent referenceEV) events st.

(** The lock state and the captured value agree, and the published
    effectiveEV of a locked meter is the captured value. *)
Definition lockConsistent (st : AppState) : Prop :=
  (aeLocked st = true ->
   lockedEVRef st = Some (Exposure.effectiveEV (exposure st))) /\
  (aeLocked st = false -> lockedEVRef st = None).

(** The five descriptions, from the darkest to the brightest. *)
Definition sceneLevel (description : string) : nat :=
  if String.eqb description "Bright outdoor (Sunny)" then 4
  else if String.eqb description "Outdoor overcast / bright indoor" then 3
  else if String.eqb description "Indoor (normal lighting)" then 2
  else if String.eqb description "Dim indoor / night street" then 1
  else 0.

(** The video can be metered: it has loaded data, is not paused and has
    a size. *)
Definition videoReady (video : Video) : bool :=
  ((readyState video =? 4)%Z && negb (paused video)
   && negb (videoWidth video =? 0)%N && negb (videoHeight video =? 0)%N)%bool.

(** The pixels the loop of [drawHistogram] samples: those with an even
    index, counting from [pixelIndex]. *)
Fixpoint sampledPixels (pixelIndex : nat) (data : list Pixel) : list Pixel :=
  match data with
  | [] => []
  | p :: rest =>
      if Nat.even pixelIndex then p :: sampledPixels (S pixelIndex) rest
      else sampledPixels (S pixelIndex) rest
  end.

(** How many pixels of a list fall into bin [k] under the index function
    [bin]. *)
Definition binCount (bin : Pixel -> Z) (k : nat) (pixels : list Pixel) : nat :=
  List.length (filter (fun p => (bin p =? Z.of_nat k)%Z) pixels).

(** What every entry of [filmPresets] satisfies. *)
Definition usablePreset (preset : FilmPreset.t) : Prop :=
  0.85 <= FilmPreset.calibrationFactor preset <= 0.95 /\
  0 <= FilmPreset.recommendedCompensation preset <= 0.4 /\
  5 <= FilmPreset.underExposureThreshold preset <= 20 /\
  240 <= FilmPreset.overExposureThreshold preset <= 255.

(** ** Facts about the number model *)

Lemma sign_pos (x : R) : 0 < x -> Js.sign x = Gt.
Proof.
  intros H. unfold Js.sign.
  destruct (total_order_T x 0) as [[Hlt | Heq] | Hgt]; [lra | lra | reflexivity].
Qed.



Lemma log2_pos (x : R) : 0 < x -> Js.log2 x = Fin (ln x / ln 2).
Proof. intros H. unfold Js.log2. now rewrite sign_pos. Qed.




Lemma lt_Fin (x y : R) : Js.lt (Fin x) (Fin y) = true <-> x < y.
Proof.
  simpl. destruct (Rlt_dec x y); split; intros; try easy.
Qed.

Lemma le_Fin (x y : R) : Js.le (Fin x) (Fin y) = true <-> x <= y.
Proof.
  simpl. destruct (Rle_dec x y); split; intros; try easy.
Qed.




(** ** The EV calculator *)

Lemma calculateEffectiveEV_dark (referenceEV b i c f : R) :
  b <= 0 -> calculateEffectiveEV referenceEV b i c f = NegInf.
Proof.
  intros Hb. unfold calculateEffectiveEV.
  destruct (Rle_dec b 0) as [_ | Hn]; [reflexivity | contradiction].
Qed.

Lemma calculateEffectiveEV_lit (referenceEV b i c f : R) :
  0 < b ->
  calculateEffectiveEV referenceEV b i c f =
  Js.add
    (Js.add (Js.add (Fin referenceEV) (Js.log2 ((b * f) / referenceGray)))
            (Js.log2 (i / 100)))
    (Fin c).
Proof.
  intros Hb. unfold calculateEffectiveEV.
  destruct (Rle_dec b 0) as [Hle | _]; [lra | reflexivity].
Qed.

Lemma calculateEffectiveEV_finite (referenceEV b i c f : R) :
  0 < b -> 0 < i -> 0 < f ->
  calculateEffectiveEV referenceEV b i c f = Fin (finiteEV referenceEV b i c f).
Proof.
  intros Hb Hi Hf.
  rewrite calculateEffectiveEV_lit by assumption.
  assert (Hx : 0 < (b * f) / referenceGray).
  { unfold referenceGray. apply Rdiv_lt_0_compat; [nra | lra]. }
  assert (Hy : 0 < i / 100) by lra.
  rewrite (log2_pos _ Hx), (log2_pos _ Hy). reflexivity.
Qed.

(** The gray card at ISO 100: brightness 128 with calibration factor 1
    and no compensation meters [referenceEV]. *)
Lemma calculateEffectiveEV_gray_card (referenceEV : R) :
  calculateEffectiveEV referenceEV 128 100 0 1 = Fin referenceEV.
Proof.
  rewrite calculateEffectiveEV_finite by lra. unfold finiteEV, referenceGray.
  replace ((128 * 1) / 128) with 1 by lra.
  replace (100 / 100) with 1 by lra.
  rewrite ln_1. f_equal. unfold Rdiv. lra.
Qed.








(** ** The EV table *)

Lemma in_shutterApertureEV (c : Candidate.t) :
  In c shutterApertureEV <->
  exists s a : R,
    In s standardShutterSpeeds /\ In a standardApertures /\
    c = Candidate.make s a (Js.log2 ((a * a) / s)).
Proof.
  unfold shutterApertureEV. rewrite in_flat_map. split.
  - intros [s [Hs Hc]]. apply in_map_iff in Hc. destruct Hc as [a [Hc Ha]].
    exists s, a. auto.
  - intros [s [a [Hs [Ha Hc]]]]. exists s. split; [assumption |].
    apply in_map_iff. exists a. auto.
Qed.

Lemma standardShutterSpeeds_pos (s : R) :
  In s standardShutterSpeeds -> 0 < s.
Proof.
  unfold standardShutterSpeeds. simpl. intros H.
  repeat (destruct H as [H | H]; [subst s; lra |]). contradiction.
Qed.

Lemma standardApertures_pos (a : R) :
  In a standardApertures -> 0 < a.
Proof.
  unfold standardApertures. simpl. intros H.
  repeat (destruct H as [H | H]; [subst a; lra |]). contradiction.
Qed.

(** Every entry of the table has a finite [ev]. *)
Lemma shutterApertureEV_finite (c : Candidate.t) :
  In c shutterApertureEV -> finiteCandidate c.
Proof.
  intros H. apply in_shutterApertureEV in H.
  destruct H as [s [a [Hs [Ha Hc]]]]. subst c.
  apply standardShutterSpeeds_pos in Hs. apply standardApertures_pos in Ha.
  exists (ln ((a * a) / s) / ln 2). simpl.
  apply log2_pos. apply Rdiv_lt_0_compat; [nra | assumption].
Qed.

Lemma shutterCandidates_in (chosen : R) (c : Candidate.t) :
  In c (shutterCandidates chosen) <->
  In c shutterApertureEV /\ Candidate.shutter c = chosen.
Proof.
  unfold shutterCandidates. rewrite filter_In. unfold sameNumber.
  destruct (Req_dec_T (Candidate.shutter c) chosen); intuition discriminate.
Qed.

Lemma apertureCandidates_in (chosen : R) (c : Candidate.t) :
  In c (apertureCandidates chosen) <->
  In c shutterApertureEV /\ Candidate.aperture c = chosen.
Proof.
  unfold apertureCandidates. rewrite filter_In. unfold sameNumber.
  destruct (Req_dec_T (Candidate.aperture c) chosen); intuition discriminate.
Qed.

(** A chosen value of the option lists has entries in the table. *)
Lemma shutterCandidates_nonempty (chosen : R) :
  In chosen standardShutterSpeeds -> shutterCandidates chosen <> [].
Proof.
  intros Hs Hnil.
  assert (Hin : In (Candidate.make chosen 1.4 (Js.log2 ((1.4 * 1.4) / chosen)))
                   (shutterCandidates chosen)).
  { apply shutterCandidates_in. split; [| reflexivity].
    apply in_shutterApertureEV. exists chosen, 1.4.
    repeat split; [assumption | unfold standardApertures; simpl; auto]. }
  rewrite Hnil in Hin. contradiction.
Qed.

Lemma apertureCandidates_nonempty (chosen : R) :
  In chosen standardApertures -> apertureCandidates chosen <> [].
Proof.
  intros Ha Hnil.
  assert (Hin : In (Candidate.make 1 chosen (Js.log2 ((chosen * chosen) / 1)))
                   (apertureCandidates chosen)).
  { apply apertureCandidates_in. split; [| reflexivity].
    apply in_shutterApertureEV. exists 1, chosen.
    repeat split; [unfold standardShutterSpeeds; simpl; tauto | assumption]. }
  rewrite Hnil in Hin. contradiction.
Qed.

(** ** The scan for the closest candidate *)

Lemma distance_finite (e : R) (c : Candidate.t) (r : R) :
  Candidate.ev c = Fin r -> distance (Fin e) c = Fin (Rabs (r + - e)).
Proof. intros H. unfold distance. rewrite H. reflexivity. Qed.

Lemma scanCandidate_invariant (e : R) (seen : list Candidate.t)
  (st : option Candidate.t * num) (c : Candidate.t) :
  Forall finiteCandidate seen -> finiteCandidate c ->
  scanInvariant e seen st ->
  scanInvariant e (seen ++ [c]) (scanCandidate (Fin e) st c).
Proof.
  intros Hseen [r Hr] Hinv.
  unfold scanCandidate. fold (distance (Fin e) c).
  rewrite (distance_finite e c r Hr).
  destruct st as [[best |] m]; unfold scanInvariant in *; simpl in *.
  - destruct Hinv as [Hin [Hm Hmin]].
    assert (Hbest : finiteCandidate best).
    { rewrite Forall_forall in Hseen. now apply Hseen. }
    destruct Hbest as [rb Hrb].
    rewrite (distance_finite e best rb Hrb) in Hm, Hmin. subst m. simpl.
    destruct (Rlt_dec (Rabs (r + - e)) (Rabs (rb + - e))) as [Hlt | Hge]; simpl.
    + split; [apply in_or_app; right; left; reflexivity |].
      split; [symmetry; now apply distance_finite |].
      intros c' Hc'. rewrite (distance_finite e c r Hr).
      apply in_app_or in Hc'. destruct Hc' as [Hc' | [Hc' | []]].
      * specialize (Hmin c' Hc').
        assert (Hf : finiteCandidate c').
        { rewrite Forall_forall in Hseen. now apply Hseen. }
        destruct Hf as [r' Hr'].
        rewrite (distance_finite e c' r' Hr') in *.
        apply le_Fin in Hmin. apply le_Fin. lra.
      * subst c'. rewrite (distance_finite e c r Hr). apply le_Fin. lra.
    + split; [apply in_or_app; left; assumption |].
      split; [symmetry; now apply distance_finite |].
      intros c' Hc'. rewrite (distance_finite e best rb Hrb).
      apply in_app_or in Hc'. destruct Hc' as [Hc' | [Hc' | []]].
      * now apply Hmin.
      * subst c'. rewrite (distance_finite e c r Hr). apply le_Fin. lra.
  - destruct Hinv as [Hnil Hm]. subst seen m. simpl.
    split; [left; reflexivity |].
    split; [symmetry; now apply distance_finite |].
    intros c' [Hc' | []]. subst c'.
    rewrite (distance_finite e c r Hr). apply le_Fin. lra.
Qed.

Lemma scan_invariant (e : R) (candidates : list Candidate.t) :
  forall (seen : list Candidate.t) (st : option Candidate.t * num),
    Forall finiteCandidate seen -> Forall finiteCandidate candidates ->
    scanInvariant e seen st ->
    scanInvariant e (seen ++ candidates)
      (fold_left (scanCandidate (Fin e)) candidates st).
Proof.
  induction candidates as [| c rest IH]; intros seen st Hseen Hcands Hinv.
  - simpl. now rewrite app_nil_r.
  - simpl. inversion Hcands as [| ? ? Hc Hrest]; subst.
    replace (seen ++ c :: rest) with ((seen ++ [c]) ++ rest)
      by (rewrite <- app_assoc; reflexivity).
    apply IH.
    + apply Forall_app. split; [assumption | now constructor].
    + assumption.
    + now apply scanCandidate_invariant.
Qed.

(** On a non-empty list of candidates with finite [ev] and for a finite
    [effectiveEV], the scan returns a candidate of the list that no other
    candidate of the list is closer than. *)
Lemma closestCandidate_spec (e : R) (candidates : list Candidate.t) :
  Forall finiteCandidate candidates -> candidates <> [] ->
  exists c : Candidate.t,
    closestCandidate (Fin e) candidates = Some c /\
    In c candidates /\
    forall c' : Candidate.t, In c' candidates ->
      Js.le (distance (Fin e) c) (distance (Fin e) c') = true.
Proof.
  intros Hfin Hne.
  assert (Hinv := scan_invariant e candidates [] (None, PosInf)
                    (Forall_nil _) Hfin (conj eq_refl eq_refl)).
  unfold closestCandidate. simpl in Hinv.
  destruct (fold_left (scanCandidate (Fin e)) candidates (None, PosInf))
    as [[c |] m]; unfold scanInvariant in Hinv; simpl in *.
  - exists c. destruct Hinv as [Hin [_ Hmin]]. auto.
  - destruct Hinv as [Hnil _]. contradiction.
Qed.

(** Against [-Infinity] no distance is below [Infinity]: the scan keeps
    [null]. *)
Lemma closestCandidate_NegInf (candidates : list Candidate.t) :
  closestCandidate NegInf candidates = None.
Proof.
  unfold closestCandidate.
  assert (H : fold_left (scanCandidate NegInf) candidates (None, PosInf)
              = (None, PosInf)).
  { induction candidates as [| c rest IH]; [reflexivity |].
    simpl. unfold scanCandidate at 2. simpl.
    destruct (Candidate.ev c); simpl; exact IH. }
  now rewrite H.
Qed.

(** ** The resolvers *)

(** Every finite EV is the result of the calculator on some input. *)
Lemma every_finite_EV_is_computed (referenceEV e : R) :
  calculateEffectiveEV referenceEV 128 100 (e - referenceEV) 1 = Fin e.
Proof.
  rewrite calculateEffectiveEV_finite by lra. unfold finiteEV, referenceGray.
  replace ((128 * 1) / 128) with 1 by lra.
  replace (100 / 100) with 1 by lra.
  rewrite ln_1. f_equal. unfold Rdiv. lra.
Qed.

Lemma shutterCandidates_finite (chosen : R) :
  Forall finiteCandidate (shutterCandidates chosen).
Proof.
  apply Forall_forall. intros c Hc. apply shutterCandidates_in in Hc.
  now apply shutterApertureEV_finite.
Qed.

Lemma apertureCandidates_finite (chosen : R) :
  Forall finiteCandidate (apertureCandidates chosen).
Proof.
  apply Forall_forall. intros c Hc. apply apertureCandidates_in in Hc.
  now apply shutterApertureEV_finite.
Qed.

(** The two resolvers on a finite effectiveEV. *)
Lemma shutter_priority_closest (referenceEV b i comp f chosen e : R) :
  calculateEffectiveEV referenceEV b i comp f = Fin e ->
  shutterCandidates chosen <> [] ->
  exists c : Candidate.t,
    In c (shutterCandidates chosen) /\
    (forall c' : Candidate.t, In c' (shutterCandidates chosen) ->
       Js.le (distance (Fin e) c) (distance (Fin e) c') = true) /\
    calculateExposureShutterPriority referenceEV b i comp chosen f =
    Exposure.make chosen (Candidate.aperture c) (Fin e) None
                  (Js.sub (Candidate.ev c) (Fin e)).
Proof.
  intros HEV Hne.
  destruct (closestCandidate_spec e (shutterCandidates chosen)
              (shutterCandidates_finite chosen) Hne) as [c [Hc [Hin Hmin]]].
  exists c. repeat split; try assumption.
  unfold calculateExposureShutterPriority. rewrite HEV, Hc. reflexivity.
Qed.

Lemma aperture_priority_closest (referenceEV b i comp f chosen e : R) :
  calculateEffectiveEV referenceEV b i comp f = Fin e ->
  apertureCandidates chosen <> [] ->
  exists c : Candidate.t,
    In c (apertureCandidates chosen) /\
    (forall c' : Candidate.t, In c' (apertureCandidates chosen) ->
       Js.le (distance (Fin e) c) (distance (Fin e) c') = true) /\
    calculateExposureAperturePriority referenceEV b i comp chosen f =
    Exposure.make (Candidate.shutter c) chosen (Fin e) None
                  (Js.sub (Candidate.ev c) (Fin e)).
Proof.
  intros HEV Hne.
  destruct (closestCandidate_spec e (apertureCandidates chosen)
              (apertureCandidates_finite chosen) Hne) as [c [Hc [Hin Hmin]]].
  exists c. repeat split; try assumption.
  unfold calculateExposureAperturePriority. rewrite HEV, Hc. reflexivity.
Qed.

(** C3, as amended: for every finite effectiveEV [e] (the calculator's
    result on the resolver's arguments) and every chosen value of the fixed
    axis whose subset of the table is not empty, the resolver returns a
    candidate of that subset whose [abs(candidate.ev - effectiveEV)] no
    candidate of the subset is below, with
    [evDifference = candidate.ev - effectiveEV]; and the result is the same
    for all arguments that give the same effectiveEV and chosen value. *)
Theorem resolver_returns_closest_candidate :
  forall referenceEV b i comp f chosen e : R,
    calculateEffectiveEV referenceEV b i comp f = Fin e ->
    (shutterCandidates chosen <> [] ->
     exists c : Candidate.t,
       In c (shutterCandidates chosen) /\
       (forall c' : Candidate.t, In c' (shutterCandidates chosen) ->
          Js.le (distance (Fin e) c) (distance (Fin e) c') = true) /\
       calculateExposureShutterPriority referenceEV b i comp chosen f =
       Exposure.make chosen (Candidate.aperture c) (Fin e) None
                     (Js.sub (Candidate.ev c) (Fin e))) /\
    (apertureCandidates chosen <> [] ->
     exists c : Candidate.t,
       In c (apertureCandidates chosen) /\
       (forall c' : Candidate.t, In c' (apertureCandidates chosen) ->
          Js.le (distance (Fin e) c) (distance (Fin e) c') = true) /\
       calculateExposureAperturePriority referenceEV b i comp chosen f =
       Exposure.make (Candidate.shutter c) chosen (Fin e) None
                     (Js.sub (Candidate.ev c) (Fin e))) /\
    (forall b' i' comp' f' : R,
       calculateEffectiveEV referenceEV b' i' comp' f' = Fin e ->
       calculateExposureShutterPriority referenceEV b' i' comp' chosen f' =
       calculateExposureShutterPriority referenceEV b i comp chosen f /\
       calculateExposureAperturePriority referenceEV b' i' comp' chosen f' =
       calculateExposureAperturePriority referenceEV b i comp chosen f).
Proof.
  intros referenceEV b i comp f chosen e HEV.
  split; [| split].
  - intros Hne. now apply shutter_priority_closest.
  - intros Hne. now apply aperture_priority_closest.
  - intros b' i' comp' f' HEV'.
    unfold calculateExposureShutterPriority, calculateExposureAperturePriority.
    rewrite HEV, HEV'. split; reflexivity.
Qed.

(** C3 at brightness 128, ISO 100, no compensation and calibration factor
    1, for the chosen shutter 1/125 and the chosen aperture 2.8. *)
Lemma resolver_returns_closest_candidate_witness :
  (exists c : Candidate.t,
     In c (shutterCandidates (1 / 125)) /\
     (forall c' : Candidate.t, In c' (shutterCandidates (1 / 125)) ->
        Js.le (distance (Fin 7) c)
              (distance (Fin 7) c') = true) /\
     calculateExposureShutterPriority 7 128 100 0 (1 / 125) 1 =
     Exposure.make (1 / 125) (Candidate.aperture c)
                   (Fin 7) None
                   (Js.sub (Candidate.ev c) (Fin 7))) /\
  (exists c : Candidate.t,
     In c (apertureCandidates 2.8) /\
     (forall c' : Candidate.t, In c' (apertureCandidates 2.8) ->
        Js.le (distance (Fin 7) c)
              (distance (Fin 7) c') = true) /\
     calculateExposureAperturePriority 7 128 100 0 2.8 1 =
     Exposure.make (Candidate.shutter c) 2.8
                   (Fin 7) None
                   (Js.sub (Candidate.ev c) (Fin 7))).
Proof.
  split.
  - apply (resolver_returns_closest_candidate 7 128 100 0 1 (1 / 125)
             7).
    + apply calculateEffectiveEV_gray_card.
    + apply shutterCandidates_nonempty.
      unfold standardShutterSpeeds; simpl; tauto.
  - apply (resolver_returns_closest_candidate 7 128 100 0 1 2.8
             7).
    + apply calculateEffectiveEV_gray_card.
    + apply apertureCandidates_nonempty.
      unfold standardApertures; simpl; tauto.
Defined.

(** C3, as stated, fails at the effectiveEV [-Infinity] of a brightness of
    0: the table has entries with shutter 1/125, and the resolver returns
    none of them (aperture 0, evDifference 0). *)
Lemma resolver_returns_no_candidate_at_NegInf :
  calculateEffectiveEV 7 0 100 0 1 = NegInf /\
  shutterCandidates (1 / 125) <> [] /\
  closestCandidate NegInf (shutterCandidates (1 / 125)) = None /\
  calculateExposureShutterPriority 7 0 100 0 (1 / 125) 1 =
  Exposure.make (1 / 125) 0 NegInf None (Fin 0).
Proof.
  assert (HEV : calculateEffectiveEV 7 0 100 0 1 = NegInf)
    by (apply calculateEffectiveEV_dark; lra).
  repeat split.
  - exact HEV.
  - apply shutterCandidates_nonempty.
    unfold standardShutterSpeeds; simpl; tauto.
  - apply closestCandidate_NegInf.
  - unfold calculateExposureShutterPriority.
    rewrite HEV, closestCandidate_NegInf. reflexivity.
Qed.




(** ** The metering tick *)

Lemma resolve_effectiveEV (referenceEV : R) (cfg : Config) (b : R) :
  Exposure.effectiveEV (resolve referenceEV cfg b) = liveEV referenceEV cfg b.
Proof.
  unfold resolve. destruct (String.eqb (priorityMode cfg) "aperture");
    reflexivity.
Qed.

(** A brightness of 5 to 250 is metered: the tick runs the resolver and
    publishes its reading. *)
Lemma meteringTick_metered (referenceEV : R) (cfg : Config) (st : AppState)
  (b : R) :
  5 <= b <= 250 ->
  meteringTick referenceEV cfg st b =
  publishReading (smoothingFactor cfg) st (resolve referenceEV cfg b).
Proof.
  intros [Hlo Hhi]. unfold meteringTick, resolve.
  destruct (Rlt_dec b 5) as [H | _]; [lra |].
  destruct (Rlt_dec 250 b) as [H | _]; [lra |].
  reflexivity.
Qed.

(** A tick changes neither [aeLocked] nor [lockedEVRef]. *)
Lemma meteringTick_lock_state (referenceEV : R) (cfg : Config)
  (st : AppState) (b : R) :
  aeLocked (meteringTick referenceEV cfg st b) = aeLocked st /\
  lockedEVRef (meteringTick referenceEV cfg st b) = lockedEVRef st.
Proof.
  unfold meteringTick.
  destruct (Rlt_dec b 5); [split; reflexivity |].
  destruct (Rlt_dec 250 b); split; reflexivity.
Qed.




Lemma handleAeLock_locks (st : AppState) :
  aeLocked st = false ->
  lockedOn (Exposure.effectiveEV (exposure st)) (handleAeLock st).
Proof.
  intros H. unfold lockedOn, handleAeLock. rewrite H. simpl. auto.
Qed.




Lemma liveEV_128 : liveEV 7 sampleConfig 128 = Fin 7.
Proof.
  unfold liveEV, sampleConfig. simpl. apply calculateEffectiveEV_gray_card.
Qed.


Lemma firstReading_unlocked : aeLocked firstReading = false.
Proof.
  unfold firstReading.
  now rewrite (proj1 (meteringTick_lock_state 7 sampleConfig initialState 128)).
Qed.



(** ** The temporal smoother *)





(** ** The exposure classifier *)

(** The texts tell the bands apart. *)
Lemma advisory_injective (s t : Severity) : advisory s = advisory t -> s = t.
Proof.
  destruct s, t; simpl; intros H; try reflexivity; discriminate H.
Qed.

Ltac decide_bands :=
  unfold classifyExposure, Js.ge, Js.le;
  repeat match goal with
         | |- context [Rle_dec ?x ?y] => destruct (Rle_dec x y)
         end;
  try reflexivity; exfalso; lra.

(** C7: the classifier assigns the band of the table with thresholds 0.3,
    0.6 and 1.0 to every evDifference; in particular -1.0 is severe
    underexposure, -0.6 moderate underexposure, 0.0 balanced and 1.0
    severe overexposure. *)
Theorem classifyExposure_bands :
  forall d : R,
    (d <= -1 -> classifyExposure (Fin d) = advisory SevereUnderexposure) /\
    (-1 < d <= -0.6 ->
     classifyExposure (Fin d) = advisory ModerateUnderexposure) /\
    (-0.6 < d <= -0.3 ->
     classifyExposure (Fin d) = advisory SlightUnderexposure) /\
    (-0.3 < d < 0.3 -> classifyExposure (Fin d) = advisory Balanced) /\
    (0.3 <= d < 0.6 ->
     classifyExposure (Fin d) = advisory SlightOverexposure) /\
    (0.6 <= d < 1 ->
     classifyExposure (Fin d) = advisory ModerateOverexposure) /\
    (1 <= d -> classifyExposure (Fin d) = advisory SevereOverexposure).
Proof.
  intros d. repeat split; intros H; decide_bands.
Qed.

(** C7 at the four boundary values of the specification. *)
Lemma classifyExposure_bands_witness :
  classifyExposure (Fin (-1)) = advisory SevereUnderexposure /\
  classifyExposure (Fin (-0.6)) = advisory ModerateUnderexposure /\
  classifyExposure (Fin 0) = advisory Balanced /\
  classifyExposure (Fin 1) = advisory SevereOverexposure.
Proof.
  repeat split.
  - apply (proj1 (classifyExposure_bands (-1))). lra.
  - apply (proj1 (proj2 (classifyExposure_bands (-0.6)))). lra.
  - apply (proj1 (proj2 (proj2 (proj2 (classifyExposure_bands 0))))). lra.
  - apply (proj2 (proj2 (proj2 (proj2 (proj2 (proj2
             (classifyExposure_bands 1))))))). lra.
Defined.

(** ** The histogram engine: bin indices *)

Lemma channel_range (b : byte) : (0 <= channel b <= 255)%Z.
Proof.
  unfold channel. generalize (Byte.to_N_bounded b). lia.
Qed.

Lemma IZR_channel_range (b : byte) : 0 <= IZR (channel b) <= 255.
Proof.
  destruct (channel_range b) as [Hlo Hhi].
  split; [apply (IZR_le 0) | apply (IZR_le _ 255)]; assumption.
Qed.

(** The weighted sum of three bytes is between 0 and 255, and so is its
    floor. *)
Lemma brightnessOf_range (p : Pixel) : (0 <= brightnessOf p <= 255)%Z.
Proof.
  unfold brightnessOf, Js.floor.
  generalize (IZR_channel_range (red p)) (IZR_channel_range (green p))
             (IZR_channel_range (blue p)).
  intros Hr Hg Hb.
  set (x := 0.299 * IZR (channel (red p)) + 0.587 * IZR (channel (green p))
            + 0.114 * IZR (channel (blue p))).
  assert (Hx : 0 <= x <= 255) by (unfold x; lra).
  split.
  - apply Zfloor_lub. simpl. lra.
  - apply le_IZR. generalize (Zfloor_bound x). lra.
Qed.

Lemma pow2_pos (x : R) : 0 < Js.pow2 x.
Proof. unfold Js.pow2, Rpower. apply exp_pos. Qed.

Lemma round_nonneg (x : R) : 0 <= x -> (0 <= Js.round x)%Z.
Proof.
  intros Hx. unfold Js.round. apply Zfloor_lub. simpl. lra.
Qed.

Lemma adjusted_nonneg (compensation : R) (p : Pixel) :
  0 <= IZR (brightnessOf p) * Js.pow2 compensation.
Proof.
  apply Rmult_le_pos.
  - apply (IZR_le 0). apply brightnessOf_range.
  - apply Rlt_le, pow2_pos.
Qed.

Lemma adjustedBrightness_range (compensation : R) (p : Pixel) :
  (0 <= adjustedBrightness compensation p <= 255)%Z.
Proof.
  unfold adjustedBrightness.
  generalize (round_nonneg _ (adjusted_nonneg compensation p)). lia.
Qed.



(** ** The histogram engine: counting *)

Lemma bump_length (k : nat) (h : list nat) :
  List.length (bump k h) = List.length h.
Proof.
  revert k. induction h as [| c rest IH]; intros k; [reflexivity |].
  destruct k; simpl; [reflexivity | now rewrite IH].
Qed.

Lemma bump_total (k : nat) (h : list nat) :
  (k < List.length h)%nat -> binTotal (bump k h) = S (binTotal h).
Proof.
  unfold binTotal. revert k.
  induction h as [| c rest IH]; intros k Hk; simpl in Hk; [lia |].
  destruct k; simpl; [reflexivity |].
  rewrite IH by lia. lia.
Qed.

(** An index inside the array adds one to the total and keeps the
    length. *)
Lemma increment_inside (h : list nat) (k : Z) :
  (0 <= k < Z.of_nat (List.length h))%Z ->
  increment h k = bump (Z.to_nat k) h /\
  List.length (increment h k) = List.length h /\
  binTotal (increment h k) = S (binTotal h).
Proof.
  intros [Hlo Hhi]. unfold increment.
  destruct (Z.leb_spec 0 k); [| lia].
  destruct (Z.ltb_spec k (Z.of_nat (List.length h))); [| lia].
  simpl. split; [reflexivity |]. split.
  - apply bump_length.
  - apply bump_total. lia.
Qed.


Lemma sampledFrom_step (start n : nat) :
  sampledFrom start (S n) =
  ((if Nat.even start then 1 else 0) + sampledFrom (S start) n)%nat.
Proof.
  unfold sampledFrom. rewrite <- cons_seq. cbn [filter].
  destruct (Nat.even start); reflexivity.
Qed.

Lemma sampledFrom_parity (n : nat) :
  forall start : nat,
    sampledFrom start n =
    if Nat.even start then Nat.div2 (S n) else Nat.div2 n.
Proof.
  induction n as [| n IH]; intros start.
  - unfold sampledFrom. simpl. now destruct (Nat.even start).
  - rewrite sampledFrom_step, IH.
    rewrite Nat.even_succ, <- Nat.negb_even.
    destruct (Nat.even start); simpl negb; cbv iota.
    + destruct n; reflexivity.
    + reflexivity.
Qed.

Lemma sampledCount_spec (n : nat) : sampledFrom 0 n = sampledCount n.
Proof. rewrite sampledFrom_parity. reflexivity. Qed.

Lemma emptyHistogram_length : List.length emptyHistogram = 256%nat.
Proof. reflexivity. Qed.


Lemma increment_byte (h : list nat) (k : Z) :
  slots256 h -> (0 <= k <= 255)%Z ->
  slots256 (increment h k) /\ binTotal (increment h k) = S (binTotal h).
Proof.
  unfold slots256. intros Hh Hk.
  destruct (increment_inside h k) as [_ [Hlen Htot]]; [rewrite Hh; lia |].
  split; [now rewrite Hlen | assumption].
Qed.






(** ** The zone overlay *)

Lemma pow2_nat (n : nat) : Js.pow2 (INR n) = 2 ^ n.
Proof. unfold Js.pow2. apply Rpower_pow. lra. Qed.

Lemma pow2_opp_nat (n : nat) : Js.pow2 (- INR n) = / 2 ^ n.
Proof. unfold Js.pow2. rewrite Rpower_Ropp, Rpower_pow by lra. reflexivity. Qed.

(** The six markers for [referenceGray = 128]. *)
Lemma computedBoundaries_values :
  computedBoundaries = [16; 32; 64; 128; 256; 512].
Proof.
  unfold computedBoundaries, zoneNumbers, zoneBoundary, referenceGray.
  simpl map.
  replace (2 - 5) with (- INR 3) by (simpl; lra).
  replace (3 - 5) with (- INR 2) by (simpl; lra).
  replace (4 - 5) with (- INR 1) by (simpl; lra).
  replace (5 - 5) with (INR 0) by (simpl; lra).
  replace (6 - 5) with (INR 1) by (simpl; lra).
  replace (7 - 5) with (INR 2) by (simpl; lra).
  rewrite !pow2_opp_nat, !pow2_nat. simpl pow.
  repeat (apply f_equal2; [lra |]). reflexivity.
Qed.

(** The flag after the map: set before, or set by a marker above 255. *)
Lemma clampBoundaries_flag (computed : list R) :
  forall st : bool * list R,
    fst (fold_left clampBoundary computed st) = true <->
    fst st = true \/ Exists (fun b => 255 < b) computed.
Proof.
  induction computed as [| b rest IH]; intros st; simpl.
  - split; [auto | intros [H | H]; [assumption | inversion H]].
  - rewrite IH. unfold clampBoundary.
    destruct (Rlt_dec 255 b) as [Hb | Hb]; simpl; split.
    + intros _. right. now constructor.
    + auto.
    + intros [H | H]; [auto | right; now apply Exists_cons_tl].
    + intros [H | H]; [auto |].
      inversion H; subst; [contradiction | auto].
Qed.

(** C9: each marker is [referenceGray * 2^(zone - 5)] over the zone list
    2..7; the clipped flag is true exactly when a computed marker is above
    255; with [referenceGray = 128] the marker of zone 7 is 512, above 255,
    and the flag is true, while the marker of zone 5 is 128, not above 255,
    and leaves the flag as it is. *)
Theorem zone_overlay_clipping :
  zoneNumbers = [2; 3; 4; 5; 6; 7]%Z /\
  computedBoundaries =
  map (fun zone : Z => referenceGray * Js.pow2 (IZR zone - 5)) zoneNumbers /\
  (forall computed : list R,
     fst (clampBoundaries computed) = true <->
     Exists (fun b => 255 < b) computed) /\
  (clipped = true <-> Exists (fun b => 255 < b) computedBoundaries) /\
  referenceGray = 128 /\
  zoneBoundary referenceGray 7 = 512 /\ 255 < 512 /\
  clipped = true /\
  zoneBoundary referenceGray 5 = 128 /\ 128 <= 255 /\
  (forall st : bool * list R,
     clampBoundary st (zoneBoundary referenceGray 5) =
     (fst st, snd st ++ [128])).
Proof.
  assert (Hflag : forall computed : list R,
             fst (clampBoundaries computed) = true <->
             Exists (fun b => 255 < b) computed).
  { intros computed. unfold clampBoundaries.
    rewrite clampBoundaries_flag. simpl. intuition discriminate. }
  assert (Hvals := computedBoundaries_values).
  assert (H7 : zoneBoundary referenceGray 7 = 512).
  { unfold computedBoundaries, zoneNumbers in Hvals. simpl map in Hvals.
    now injection Hvals. }
  assert (H5 : zoneBoundary referenceGray 5 = 128).
  { unfold computedBoundaries, zoneNumbers in Hvals. simpl map in Hvals.
    now injection Hvals. }
  split; [reflexivity |]. split; [reflexivity |].
  split; [exact Hflag |]. split; [apply Hflag |].
  split; [reflexivity |]. split; [exact H7 |]. split; [lra |].
  split.
  - unfold clipped. apply Hflag. rewrite Hvals.
    do 5 apply Exists_cons_tl. apply Exists_cons_hd. lra.
  - split; [exact H5 |]. split; [lra |].
    intros st. rewrite H5. unfold clampBoundary.
    destruct (Rlt_dec 255 128); [lra | reflexivity].
Qed.

(** ** More on the EV calculator *)

Lemma ln_le_minus_1 (x : R) : 0 < x -> ln x <= x - 1.
Proof.
  intros Hx. generalize (exp_ineq1_le (ln x)). rewrite exp_ln by assumption.
  lra.
Qed.








(** ** Auto-calibration *)







(** ** More on the resolvers *)

Lemma standardShutterSpeeds_NoDup : NoDup standardShutterSpeeds.
Proof.
  unfold standardShutterSpeeds.
  repeat (apply NoDup_cons;
          [simpl; intros H;
           repeat (destruct H as [H | H]; [lra |]); contradiction |]).
  apply NoDup_nil.
Qed.

Lemma standardApertures_NoDup : NoDup standardApertures.
Proof.
  unfold standardApertures.
  repeat (apply NoDup_cons;
          [simpl; intros H;
           repeat (destruct H as [H | H]; [lra |]); contradiction |]).
  apply NoDup_nil.
Qed.

Lemma sameNumber_refl (x : R) : sameNumber x x = true.
Proof. unfold sameNumber. destruct (Req_dec_T x x); congruence. Qed.

Lemma sameNumber_neq (x y : R) : x <> y -> sameNumber x y = false.
Proof. unfold sameNumber. destruct (Req_dec_T x y); congruence. Qed.

Lemma shutterApertureEV_rows :
  shutterApertureEV =
  flat_map (fun s => map (entry s) standardApertures) standardShutterSpeeds.
Proof. reflexivity. Qed.

Lemma filter_aperture_row (s chosen : R) (apertures : list R) :
  NoDup apertures -> In chosen apertures ->
  filter (fun c => sameNumber (Candidate.aperture c) chosen)
         (map (entry s) apertures) = [entry s chosen].
Proof.
  induction apertures as [| a rest IH]; intros Hnd Hin; [contradiction |].
  inversion Hnd as [| ? ? Hnotin Hrest]; subst. simpl.
  destruct Hin as [Heq | Hin].
  - subst a. rewrite sameNumber_refl. f_equal.
    clear IH Hnd. induction rest as [| a' rest' IH']; [reflexivity |].
    simpl. rewrite sameNumber_neq.
    + apply IH'.
      * intros H. apply Hnotin. now right.
      * now inversion Hrest.
    + intros H. apply Hnotin. now left.
  - rewrite sameNumber_neq; [now apply IH |].
    intros H. subst a. contradiction.
Qed.

Lemma filter_shutter_row (s chosen : R) (apertures : list R) :
  filter (fun c => sameNumber (Candidate.shutter c) chosen)
         (map (entry s) apertures) =
  if sameNumber s chosen then map (entry s) apertures else [].
Proof.
  induction apertures as [| a rest IH]; simpl.
  - now destruct (sameNumber s chosen).
  - rewrite IH. now destruct (sameNumber s chosen).
Qed.

Lemma filter_aperture_rows (chosen : R) (shutters : list R) :
  In chosen standardApertures ->
  filter (fun c => sameNumber (Candidate.aperture c) chosen)
         (flat_map (fun s => map (entry s) standardApertures) shutters) =
  map (fun s => entry s chosen) shutters.
Proof.
  intros Hin.
  induction shutters as [| s rest IH]; [reflexivity |].
  cbn [flat_map map]. rewrite filter_app, IH.
  now rewrite (filter_aperture_row s chosen standardApertures
                 standardApertures_NoDup Hin).
Qed.

Lemma filter_shutter_rows_none (chosen : R) (shutters : list R) :
  ~ In chosen shutters ->
  filter (fun c => sameNumber (Candidate.shutter c) chosen)
         (flat_map (fun s => map (entry s) standardApertures) shutters) = [].
Proof.
  intros Hnot.
  induction shutters as [| s rest IH]; [reflexivity |].
  cbn [flat_map]. rewrite filter_app, filter_shutter_row, sameNumber_neq.
  - cbn [app]. apply IH. intros H. apply Hnot. now right.
  - intros H. apply Hnot. now left.
Qed.

Lemma filter_shutter_rows (chosen : R) (shutters : list R) :
  NoDup shutters -> In chosen shutters ->
  filter (fun c => sameNumber (Candidate.shutter c) chosen)
         (flat_map (fun s => map (entry s) standardApertures) shutters) =
  map (entry chosen) standardApertures.
Proof.
  induction shutters as [| s rest IH]; intros Hnd Hin; [contradiction |].
  inversion Hnd as [| ? ? Hnotin Hrest]; subst.
  cbn [flat_map]. rewrite filter_app, filter_shutter_row.
  destruct Hin as [Heq | Hin].
  - subst s. rewrite sameNumber_refl.
    rewrite (filter_shutter_rows_none chosen rest Hnotin).
    now rewrite app_nil_r.
  - rewrite sameNumber_neq; [cbn [app]; now apply IH |].
    intros H. subst s. contradiction.
Qed.

(** The candidates for a chosen aperture of the list: one per shutter
    speed, in the order of the shutter list. *)
Lemma apertureCandidates_shape (chosen : R) :
  In chosen standardApertures ->
  apertureCandidates chosen =
  map (fun s => entry s chosen) standardShutterSpeeds.
Proof.
  intros Hin. unfold apertureCandidates. rewrite shutterApertureEV_rows.
  now apply filter_aperture_rows.
Qed.

(** The candidates for a chosen shutter speed of the list: one per
    aperture, in the order of the aperture list. *)
Lemma shutterCandidates_shape (chosen : R) :
  In chosen standardShutterSpeeds ->
  shutterCandidates chosen = map (entry chosen) standardApertures.
Proof.
  intros Hin. unfold shutterCandidates. rewrite shutterApertureEV_rows.
  apply filter_shutter_rows; [apply standardShutterSpeeds_NoDup | assumption].
Qed.

Lemma apertureCandidates_miss (chosen : R) :
  ~ In chosen standardApertures -> apertureCandidates chosen = [].
Proof.
  intros Hnot.
  destruct (apertureCandidates chosen) as [| c rest] eqn:E; [reflexivity |].
  exfalso. apply Hnot.
  assert (Hc : In c (apertureCandidates chosen)) by (rewrite E; now left).
  apply apertureCandidates_in in Hc. destruct Hc as [Hc Ha].
  apply in_shutterApertureEV in Hc.
  destruct Hc as [s [a [_ [Hin Hc]]]]. subst c. simpl in Ha. now subst a.
Qed.

Lemma shutterCandidates_miss (chosen : R) :
  ~ In chosen standardShutterSpeeds -> shutterCandidates chosen = [].
Proof.
  intros Hnot.
  destruct (shutterCandidates chosen) as [| c rest] eqn:E; [reflexivity |].
  exfalso. apply Hnot.
  assert (Hc : In c (shutterCandidates chosen)) by (rewrite E; now left).
  apply shutterCandidates_in in Hc. destruct Hc as [Hc Hs].
  apply in_shutterApertureEV in Hc.
  destruct Hc as [s [a [Hin [_ Hc]]]]. subst c. simpl in Hs. now subst s.
Qed.

(** X4: the shape of the table.  The EV table has 99 entries; for a
    chosen aperture of the aperture list the resolver scans exactly one
    candidate per shutter speed, in the order of the shutter list (11
    candidates); for a chosen shutter speed of the shutter list, one per
    aperture in the order of the aperture list (9 candidates); for a
    chosen value that is in neither list it scans nothing. *)
Theorem candidate_subsets :
  List.length shutterApertureEV = 99%nat /\
  (forall chosen : R,
     In chosen standardApertures ->
     apertureCandidates chosen =
     map (fun s => Candidate.make s chosen
                     (Js.log2 ((chosen * chosen) / s)))
         standardShutterSpeeds /\
     List.length (apertureCandidates chosen) = 11%nat) /\
  (forall chosen : R,
     In chosen standardShutterSpeeds ->
     shutterCandidates chosen =
     map (fun a => Candidate.make chosen a (Js.log2 ((a * a) / chosen)))
         standardApertures /\
     List.length (shutterCandidates chosen) = 9%nat) /\
  (forall chosen : R,
     ~ In chosen standardApertures -> apertureCandidates chosen = []) /\
  (forall chosen : R,
     ~ In chosen standardShutterSpeeds -> shutterCandidates chosen = []).
Proof.
  split; [reflexivity |]. split; [| split; [| split]].
  - intros chosen Hin. rewrite (apertureCandidates_shape chosen Hin).
    split; [reflexivity |]. now rewrite length_map.
  - intros chosen Hin. rewrite (shutterCandidates_shape chosen Hin).
    split; [reflexivity |]. now rewrite length_map.
  - apply apertureCandidates_miss.
  - apply shutterCandidates_miss.
Qed.







(** ** Ties and monotonicity of the scan *)

Lemma scanCandidate_first (e : R) (seen : list Candidate.t)
  (st : option Candidate.t * num) (c : Candidate.t) :
  Forall finiteCandidate seen -> finiteCandidate c ->
  scanFirst e seen st ->
  scanFirst e (seen ++ [c]) (scanCandidate (Fin e) st c).
Proof.
  intros Hseen [r Hr] Hinv.
  unfold scanCandidate. fold (distance (Fin e) c).
  rewrite (distance_finite e c r Hr).
  destruct st as [[best |] m]; unfold scanFirst in *; simpl in *.
  - destruct Hinv as [[before [after [Hsplit [Hbefore Hafter]]]] Hm].
    assert (Hbest : finiteCandidate best).
    { rewrite Forall_forall in Hseen. apply Hseen. rewrite Hsplit.
      apply in_or_app. right. now left. }
    destruct Hbest as [rb Hrb].
    rewrite (distance_finite e best rb Hrb) in Hm, Hbefore, Hafter.
    subst m. simpl.
    destruct (Rlt_dec (Rabs (r + - e)) (Rabs (rb + - e))) as [Hlt | Hge]; simpl.
    + split; [| symmetry; now apply distance_finite].
      exists seen, []. split; [reflexivity |]. split; [| intros c' []].
      intros c' Hc'. rewrite (distance_finite e c r Hr).
      assert (Hf : finiteCandidate c').
      { rewrite Forall_forall in Hseen. now apply Hseen. }
      destruct Hf as [r' Hr']. rewrite (distance_finite e c' r' Hr').
      apply lt_Fin.
      rewrite Hsplit in Hc'. apply in_app_or in Hc'.
      destruct Hc' as [Hc' | [Hc' | Hc']].
      * specialize (Hbefore c' Hc').
        rewrite (distance_finite e c' r' Hr') in Hbefore.
        apply lt_Fin in Hbefore. lra.
      * subst c'. rewrite Hrb in Hr'. injection Hr' as <-. exact Hlt.
      * specialize (Hafter c' Hc').
        rewrite (distance_finite e c' r' Hr') in Hafter.
        apply le_Fin in Hafter. lra.
    + split; [| symmetry; now apply distance_finite].
      exists before, (after ++ [c]). split.
      * rewrite Hsplit, <- app_assoc. reflexivity.
      * rewrite (distance_finite e best rb Hrb). split; [exact Hbefore |].
        intros c' Hc'. apply in_app_or in Hc'.
        destruct Hc' as [Hc' | [Hc' | []]]; [now apply Hafter |].
        subst c'. rewrite (distance_finite e c r Hr). apply le_Fin. lra.
  - destruct Hinv as [Hnil Hm]. subst seen m. simpl.
    split; [| symmetry; now apply distance_finite].
    exists [], []. split; [reflexivity |]. split; intros c' [].
Qed.

Lemma scan_first (e : R) (candidates : list Candidate.t) :
  forall (seen : list Candidate.t) (st : option Candidate.t * num),
    Forall finiteCandidate seen -> Forall finiteCandidate candidates ->
    scanFirst e seen st ->
    scanFirst e (seen ++ candidates)
      (fold_left (scanCandidate (Fin e)) candidates st).
Proof.
  induction candidates as [| c rest IH]; intros seen st Hseen Hcands Hinv.
  - simpl. now rewrite app_nil_r.
  - simpl. inversion Hcands as [| ? ? Hc Hrest]; subst.
    replace (seen ++ c :: rest) with ((seen ++ [c]) ++ rest)
      by (rewrite <- app_assoc; reflexivity).
    apply IH.
    + apply Forall_app. split; [assumption | now constructor].
    + assumption.
    + now apply scanCandidate_first.
Qed.

(** The scan returns the first of the closest candidates. *)
Lemma closestCandidate_first (e : R) (candidates : list Candidate.t)
  (c : Candidate.t) :
  Forall finiteCandidate candidates ->
  closestCandidate (Fin e) candidates = Some c ->
  firstClosest e candidates c.
Proof.
  intros Hfin Hc.
  assert (Hinv := scan_first e candidates [] (None, PosInf)
                    (Forall_nil _) Hfin (conj eq_refl eq_refl)).
  unfold closestCandidate in Hc. simpl in Hinv.
  destruct (fold_left (scanCandidate (Fin e)) candidates (None, PosInf))
    as [[c0 |] m]; unfold scanFirst in Hinv; simpl in *; [| discriminate].
  injection Hc as <-. apply Hinv.
Qed.

(** In an ascending list, what comes later is larger. *)
Lemma later_is_larger (l : list R) :
  StronglySorted Rlt l ->
  forall (l1 : list R) (x : R) (l2 : list R),
    l = l1 ++ x :: l2 ->
    (forall y : R, In y l2 -> x < y) /\ (forall y : R, In y l1 -> y < x).
Proof.
  intros Hs l1. revert l Hs.
  induction l1 as [| a l1 IH]; intros l Hs x l2 Hl; subst l.
  - apply StronglySorted_inv in Hs. destruct Hs as [_ Hall].
    rewrite Forall_forall in Hall. split; [exact Hall | intros y []].
  - simpl in Hs. apply StronglySorted_inv in Hs. destruct Hs as [Hs Hall].
    destruct (IH _ Hs x l2 eq_refl) as [Hafter Hbefore].
    split; [assumption |].
    intros y [Hy | Hy]; [| now apply Hbefore].
    subst y. rewrite Forall_forall in Hall. apply Hall.
    apply in_or_app. right. now left.
Qed.

Lemma standardShutterSpeeds_ascending : StronglySorted Rlt standardShutterSpeeds.
Proof.
  unfold standardShutterSpeeds.
  repeat (apply SSorted_cons;
          [| repeat (apply Forall_cons; [lra |]); apply Forall_nil]).
  apply SSorted_nil.
Qed.

Lemma standardApertures_ascending : StronglySorted Rlt standardApertures.
Proof.
  unfold standardApertures.
  repeat (apply SSorted_cons;
          [| repeat (apply Forall_cons; [lra |]); apply Forall_nil]).
  apply SSorted_nil.
Qed.

(** Splitting a mapped list splits the list. *)
Lemma map_split_at {A B : Type} (g : A -> B) (l : list A)
  (before : list B) (c : B) (after : list B) :
  map g l = before ++ c :: after ->
  exists (l1 : list A) (x : A) (l2 : list A),
    l = l1 ++ x :: l2 /\ map g l1 = before /\ g x = c /\ map g l2 = after.
Proof.
  intros H. apply map_eq_app in H.
  destruct H as [l1 [l2' [Hl [H1 H2]]]].
  apply map_eq_cons in H2. destruct H2 as [x [l2 [Hl2 [Hx H2]]]].
  exists l1, x, l2. subst. auto.
Qed.

(** In aperture priority the resolver prefers the faster shutter among
    equally close candidates. *)
Lemma aperture_priority_tie (referenceEV b i comp f chosen e : R) :
  calculateEffectiveEV referenceEV b i comp f = Fin e ->
  In chosen standardApertures ->
  forall s : R,
    In s standardShutterSpeeds ->
    Js.le (distance (Fin e) (entry s chosen))
          (distance (Fin e)
             (entry (Exposure.shutterSpeed
                       (calculateExposureAperturePriority referenceEV b i comp
                          chosen f)) chosen)) = true ->
    Exposure.shutterSpeed
      (calculateExposureAperturePriority referenceEV b i comp chosen f) <= s.
Proof.
  intros HEV Hin s Hs Htie.
  assert (Hfin := apertureCandidates_finite chosen).
  destruct (closestCandidate_spec e (apertureCandidates chosen) Hfin
              (apertureCandidates_nonempty chosen Hin)) as [c [Hc _]].
  assert (Hfirst := closestCandidate_first e _ c Hfin Hc).
  assert (Hres : Exposure.shutterSpeed
                   (calculateExposureAperturePriority referenceEV b i comp
                      chosen f) = Candidate.shutter c).
  { unfold calculateExposureAperturePriority. rewrite HEV, Hc. reflexivity. }
  rewrite Hres in *.
  destruct Hfirst as [before [after [Hsplit [Hbefore _]]]].
  rewrite (apertureCandidates_shape chosen Hin) in Hsplit.
  apply map_split_at in Hsplit.
  destruct Hsplit as [l1 [x [l2 [Hl [H1 [Hx H2]]]]]].
  subst c. change (Candidate.shutter (entry x chosen)) with x in *.
  destruct (later_is_larger _ standardShutterSpeeds_ascending l1 x l2 Hl)
    as [Hafter _].
  rewrite Hl in Hs. apply in_app_or in Hs.
  destruct Hs as [Hs | [Hs | Hs]].
  - exfalso.
    assert (Hc' : In (entry s chosen) before).
    { rewrite <- H1. now apply (in_map (fun s => entry s chosen)). }
    specialize (Hbefore _ Hc').
    assert (Hf1 : finiteCandidate (entry x chosen)).
    { rewrite Forall_forall in Hfin. apply Hfin.
      rewrite (apertureCandidates_shape chosen Hin), Hl.
      apply (in_map (fun s => entry s chosen)). apply in_or_app. right. now left. }
    assert (Hf2 : finiteCandidate (entry s chosen)).
    { rewrite Forall_forall in Hfin. apply Hfin.
      rewrite (apertureCandidates_shape chosen Hin), Hl.
      apply (in_map (fun s => entry s chosen)). apply in_or_app. now left. }
    destruct Hf1 as [r1 Hr1]. destruct Hf2 as [r2 Hr2].
    rewrite (distance_finite e _ r1 Hr1), (distance_finite e _ r2 Hr2)
      in Hbefore, Htie.
    apply lt_Fin in Hbefore. apply le_Fin in Htie. lra.
  - subst s. lra.
  - apply Rlt_le. now apply Hafter.
Qed.

(** In shutter priority the resolver prefers the smaller f-number among
    equally close candidates. *)
Lemma shutter_priority_tie (referenceEV b i comp f chosen e : R) :
  calculateEffectiveEV referenceEV b i comp f = Fin e ->
  In chosen standardShutterSpeeds ->
  forall a : R,
    In a standardApertures ->
    Js.le (distance (Fin e) (entry chosen a))
          (distance (Fin e)
             (entry chosen
                (Exposure.aperture
                   (calculateExposureShutterPriority referenceEV b i comp
                      chosen f)))) = true ->
    Exposure.aperture
      (calculateExposureShutterPriority referenceEV b i comp chosen f) <= a.
Proof.
  intros HEV Hin a Ha Htie.
  assert (Hfin := shutterCandidates_finite chosen).
  destruct (closestCandidate_spec e (shutterCandidates chosen) Hfin
              (shutterCandidates_nonempty chosen Hin)) as [c [Hc _]].
  assert (Hfirst := closestCandidate_first e _ c Hfin Hc).
  assert (Hres : Exposure.aperture
                   (calculateExposureShutterPriority referenceEV b i comp
                      chosen f) = Candidate.aperture c).
  { unfold calculateExposureShutterPriority. rewrite HEV, Hc. reflexivity. }
  rewrite Hres in *.
  destruct Hfirst as [before [after [Hsplit [Hbefore _]]]].
  rewrite (shutterCandidates_shape chosen Hin) in Hsplit.
  apply map_split_at in Hsplit.
  destruct Hsplit as [l1 [x [l2 [Hl [H1 [Hx H2]]]]]].
  subst c. change (Candidate.aperture (entry chosen x)) with x in *.
  destruct (later_is_larger _ standardApertures_ascending l1 x l2 Hl)
    as [Hafter _].
  rewrite Hl in Ha. apply in_app_or in Ha.
  destruct Ha as [Ha | [Ha | Ha]].
  - exfalso.
    assert (Hc' : In (entry chosen a) before).
    { rewrite <- H1. now apply in_map. }
    specialize (Hbefore _ Hc').
    assert (Hf1 : finiteCandidate (entry chosen x)).
    { rewrite Forall_forall in Hfin. apply Hfin.
      rewrite (shutterCandidates_shape chosen Hin), Hl.
      apply in_map. apply in_or_app. right. now left. }
    assert (Hf2 : finiteCandidate (entry chosen a)).
    { rewrite Forall_forall in Hfin. apply Hfin.
      rewrite (shutterCandidates_shape chosen Hin), Hl.
      apply in_map. apply in_or_app. now left. }
    destruct Hf1 as [r1 Hr1]. destruct Hf2 as [r2 Hr2].
    rewrite (distance_finite e _ r1 Hr1), (distance_finite e _ r2 Hr2)
      in Hbefore, Htie.
    apply lt_Fin in Hbefore. apply le_Fin in Htie. lra.
  - subst a. lra.
  - apply Rlt_le. now apply Hafter.
Qed.

(** X6: ties.  When several candidates are equally close to a finite
    effectiveEV, the strict comparison of the scan keeps the first one in
    table order: in aperture priority no shutter speed of the list that is
    as close as the returned one is faster than it; in shutter priority no
    aperture of the list that is as close has a smaller f-number. *)
Theorem resolver_tie_break :
  forall referenceEV b i comp f chosen e : R,
    calculateEffectiveEV referenceEV b i comp f = Fin e ->
    (In chosen standardApertures ->
     forall s : R,
       In s standardShutterSpeeds ->
       Js.le (distance (Fin e) (entry s chosen))
             (distance (Fin e)
                (entry (Exposure.shutterSpeed
                          (calculateExposureAperturePriority referenceEV b i
                             comp chosen f)) chosen)) = true ->
       Exposure.shutterSpeed
         (calculateExposureAperturePriority referenceEV b i comp chosen f)
       <= s) /\
    (In chosen standardShutterSpeeds ->
     forall a : R,
       In a standardApertures ->
       Js.le (distance (Fin e) (entry chosen a))
             (distance (Fin e)
                (entry chosen
                   (Exposure.aperture
                      (calculateExposureShutterPriority referenceEV b i comp
                         chosen f)))) = true ->
       Exposure.aperture
         (calculateExposureShutterPriority referenceEV b i comp chosen f)
       <= a).
Proof.
  intros referenceEV b i comp f chosen e HEV. split.
  - intros Hin. now apply aperture_priority_tie with (e := e).
  - intros Hin. now apply shutter_priority_tie with (e := e).
Qed.

(** X6 for the gray card reading (effectiveEV 7) with the chosen aperture
    2.8 and the chosen shutter speed 1/125. *)
Lemma resolver_tie_break_witness :
  (forall s : R,
     In s standardShutterSpeeds ->
     Js.le (distance (Fin 7) (entry s 2.8))
           (distance (Fin 7)
              (entry (Exposure.shutterSpeed
                        (calculateExposureAperturePriority 7 128 100 0 2.8 1))
                 2.8)) = true ->
     Exposure.shutterSpeed (calculateExposureAperturePriority 7 128 100 0 2.8 1)
     <= s) /\
  (forall a : R,
     In a standardApertures ->
     Js.le (distance (Fin 7) (entry (1 / 125) a))
           (distance (Fin 7)
              (entry (1 / 125)
                 (Exposure.aperture
                    (calculateExposureShutterPriority 7 128 100 0 (1 / 125)
                       1)))) = true ->
     Exposure.aperture
       (calculateExposureShutterPriority 7 128 100 0 (1 / 125) 1) <= a).
Proof.
  split.
  - apply (proj1 (resolver_tie_break 7 128 100 0 1 2.8 7
                    (calculateEffectiveEV_gray_card 7))).
    unfold standardApertures. simpl. tauto.
  - apply (proj2 (resolver_tie_break 7 128 100 0 1 (1 / 125) 7
                    (calculateEffectiveEV_gray_card 7))).
    unfold standardShutterSpeeds. simpl. tauto.
Defined.






(** ** More on the metering tick *)

Lemma publishReading_fields (alpha : R) (st : AppState) (exp : Exposure.t) :
  Exposure.shutterSpeed (exposure (publishReading alpha st exp)) =
  Exposure.shutterSpeed exp /\
  Exposure.aperture (exposure (publishReading alpha st exp)) =
  Exposure.aperture exp /\
  Exposure.evDifference (exposure (publishReading alpha st exp)) =
  Exposure.evDifference exp /\
  Exposure.smoothedEV (exposure (publishReading alpha st exp)) =
  Some (smoothEV alpha (smoothedEVRef st) (Exposure.effectiveEV exp)) /\
  smoothedEVRef (publishReading alpha st exp) =
  Some (smoothEV alpha (smoothedEVRef st) (Exposure.effectiveEV exp)) /\
  exposureWarning (publishReading alpha st exp) =
  classifyExposure (Exposure.evDifference exp) /\
  error (publishReading alpha st exp) = EmptyString.
Proof.
  unfold publishReading, applyAeLock. simpl.
  destruct (aeLocked st); [destruct (lockedEVRef st) |]; simpl; tauto.
Qed.








(** X9: a tick reports an error exactly when the brightness is below 5 or
    above 250, and then it keeps the previous reading, warning, smoother
    and lock untouched. *)
Theorem meteringTick_out_of_range :
  forall (referenceEV : R) (cfg : Config) (st : AppState) (b : R),
    (error (meteringTick referenceEV cfg st b) <> EmptyString <->
     b < 5 \/ 250 < b) /\
    (b < 5 \/ 250 < b ->
     exposure (meteringTick referenceEV cfg st b) = exposure st /\
     exposureWarning (meteringTick referenceEV cfg st b) = exposureWarning st /\
     smoothedEVRef (meteringTick referenceEV cfg st b) = smoothedEVRef st /\
     aeLocked (meteringTick referenceEV cfg st b) = aeLocked st /\
     lockedEVRef (meteringTick referenceEV cfg st b) = lockedEVRef st).
Proof.
  intros referenceEV cfg st b. unfold meteringTick.
  destruct (Rlt_dec b 5) as [Hlo | Hlo].
  - simpl. split; [split; [tauto | discriminate] | tauto].
  - destruct (Rlt_dec 250 b) as [Hhi | Hhi].
    + simpl. split; [split; [tauto | discriminate] | tauto].
    + split.
      * destruct (publishReading_fields (smoothingFactor cfg) st
                    (resolve referenceEV cfg b)) as [_ [_ [_ [_ [_ [_ Herr]]]]]].
        cbv zeta. rewrite Herr. split; [congruence | lra].
      * intros [H | H]; lra.
Qed.

(** ** The lock over a whole session *)

Lemma handleAeLock_consistent (st : AppState) :
  lockConsistent st -> lockConsistent (handleAeLock st).
Proof.
  intros [Hon Hoff]. unfold lockConsistent, handleAeLock.
  destruct (aeLocked st); simpl; split; intros H;
    try discriminate; reflexivity.
Qed.

Lemma meteringTick_consistent (referenceEV : R) (cfg : Config)
  (st : AppState) (b : R) :
  lockConsistent st -> lockConsistent (meteringTick referenceEV cfg st b).
Proof.
  intros [Hon Hoff]. unfold lockConsistent, meteringTick.
  destruct (Rlt_dec b 5); [simpl; tauto |].
  destruct (Rlt_dec 250 b); [simpl; tauto |].
  unfold publishReading, applyAeLock. simpl.
  destruct (aeLocked st) eqn:E.
  - rewrite (Hon eq_refl). simpl. split; [reflexivity | discriminate].
  - rewrite (Hoff eq_refl). simpl. split; [discriminate | reflexivity].
Qed.

Lemma runEvents_consistent (referenceEV : R) (events : list Event) :
  forall st : AppState,
    lockConsistent st -> lockConsistent (runEvents referenceEV st events).
Proof.
  unfold runEvents.
  induction events as [| ev rest IH]; intros st H; simpl; [assumption |].
  apply IH. destruct ev as [cfg b |]; simpl.
  - now apply meteringTick_consistent.
  - now apply handleAeLock_consistent.
Qed.

(** X10: in every state a session can reach from a fresh mount by ticks
    and presses of the AE-lock button, the meter is locked exactly when a
    value is captured, and while it is locked the published effectiveEV is
    the captured value; the test [lockedEVRef.current !== null] of the
    tick never decides anything. *)
Theorem lock_state_invariant :
  forall (referenceEV : R) (events : list Event),
    (aeLocked (runEvents referenceEV initialState events) = true <->
     lockedEVRef (runEvents referenceEV initialState events) <> None) /\
    (aeLocked (runEvents referenceEV initialState events) = true ->
     lockedEVRef (runEvents referenceEV initialState events) =
     Some (Exposure.effectiveEV
             (exposure (runEvents referenceEV initialState events)))).
Proof.
  intros referenceEV events.
  assert (Hinit : lockConsistent initialState).
  { unfold lockConsistent, initialState. simpl.
    split; [discriminate | reflexivity]. }
  destruct (runEvents_consistent referenceEV events initialState Hinit)
    as [Hon Hoff].
  split; [| exact Hon].
  destruct (aeLocked (runEvents referenceEV initialState events)).
  - rewrite (Hon eq_refl). split; [discriminate | reflexivity].
  - rewrite (Hoff eq_refl). split; [discriminate | congruence].
Qed.

(** X11: the lock changes nothing but the published effectiveEV: a tick of
    a locked meter publishes the same shutter speed, aperture, smoothedEV,
    evDifference and warning, and leaves the same smoother state and
    error, as the same tick after the lock is released. *)
Theorem lock_changes_only_effectiveEV :
  forall (referenceEV : R) (cfg : Config) (st : AppState) (b : R),
    aeLocked st = true ->
    Exposure.shutterSpeed (exposure (meteringTick referenceEV cfg st b)) =
    Exposure.shutterSpeed
      (exposure (meteringTick referenceEV cfg (handleAeLock st) b)) /\
    Exposure.aperture (exposure (meteringTick referenceEV cfg st b)) =
    Exposure.aperture
      (exposure (meteringTick referenceEV cfg (handleAeLock st) b)) /\
    Exposure.smoothedEV (exposure (meteringTick referenceEV cfg st b)) =
    Exposure.smoothedEV
      (exposure (meteringTick referenceEV cfg (handleAeLock st) b)) /\
    Exposure.evDifference (exposure (meteringTick referenceEV cfg st b)) =
    Exposure.evDifference
      (exposure (meteringTick referenceEV cfg (handleAeLock st) b)) /\
    exposureWarning (meteringTick referenceEV cfg st b) =
    exposureWarning (meteringTick referenceEV cfg (handleAeLock st) b) /\
    smoothedEVRef (meteringTick referenceEV cfg st b) =
    smoothedEVRef (meteringTick referenceEV cfg (handleAeLock st) b) /\
    error (meteringTick referenceEV cfg st b) =
    error (meteringTick referenceEV cfg (handleAeLock st) b).
Proof.
  intros referenceEV cfg st b Hlocked.
  assert (Hst : exposure (handleAeLock st) = exposure st /\
                exposureWarning (handleAeLock st) = exposureWarning st /\
                smoothedEVRef (handleAeLock st) = smoothedEVRef st).
  { unfold handleAeLock. rewrite Hlocked. simpl. tauto. }
  destruct Hst as [He [Hw Hs]].
  unfold meteringTick.
  destruct (Rlt_dec b 5); [simpl; rewrite He, Hw, Hs; tauto |].
  destruct (Rlt_dec 250 b); [simpl; rewrite He, Hw, Hs; tauto |].
  cbv zeta.
  destruct (publishReading_fields (smoothingFactor cfg) st
              (resolve referenceEV cfg b))
    as [A1 [A2 [A3 [A4 [A5 [A6 A7]]]]]].
  destruct (publishReading_fields (smoothingFactor cfg) (handleAeLock st)
              (resolve referenceEV cfg b))
    as [B1 [B2 [B3 [B4 [B5 [B6 B7]]]]]].
  rewrite A1, A2, A3, A4, A5, A6, A7, B1, B2, B3, B4, B5, B6, B7, Hs.
  tauto.
Qed.

(** X11 on the locked reading of the examples and a tick of brightness
    64. *)
Lemma lock_changes_only_effectiveEV_witness :
  Exposure.shutterSpeed (exposure (meteringTick 7 sampleConfig lockedReading 64))
  = Exposure.shutterSpeed
      (exposure (meteringTick 7 sampleConfig (handleAeLock lockedReading) 64)) /\
  Exposure.smoothedEV (exposure (meteringTick 7 sampleConfig lockedReading 64))
  = Exposure.smoothedEV
      (exposure (meteringTick 7 sampleConfig (handleAeLock lockedReading) 64)) /\
  exposureWarning (meteringTick 7 sampleConfig lockedReading 64) =
  exposureWarning (meteringTick 7 sampleConfig (handleAeLock lockedReading) 64).
Proof.
  destruct (lock_changes_only_effectiveEV 7 sampleConfig lockedReading 64)
    as [H1 [_ [H3 [_ [H5 _]]]]].
  - apply handleAeLock_locks, firstReading_unlocked.
  - auto.
Defined.

(** X12: the AE-lock button is a toggle that touches only the lock: it
    flips [aeLocked], keeps the reading, the warning, the error and the
    smoother, and pressing it twice on an unlocked meter restores the
    state exactly. *)
Theorem handleAeLock_toggle :
  forall st : AppState,
    aeLocked (handleAeLock st) = negb (aeLocked st) /\
    exposure (handleAeLock st) = exposure st /\
    exposureWarning (handleAeLock st) = exposureWarning st /\
    error (handleAeLock st) = error st /\
    smoothedEVRef (handleAeLock st) = smoothedEVRef st /\
    (aeLocked st = false -> lockedEVRef st = None ->
     handleAeLock (handleAeLock st) = st).
Proof.
  intros st. unfold handleAeLock.
  destruct st as [locked lref sref exp warn err]. simpl.
  destruct locked; simpl; repeat split; try discriminate.
  intros _ Hnone. simpl in Hnone. now subst lref.
Qed.

(** ** More on the smoother *)






(** ** The colour of the EV line *)

Lemma displayedDifference_publish (alpha : R) (st : AppState)
  (exp : Exposure.t) :
  displayedDifference (exposure (publishReading alpha st exp)) =
  Js.abs (Js.sub (smoothEV alpha (smoothedEVRef st) (Exposure.effectiveEV exp))
                 (match aeLocked st, lockedEVRef st with
                  | true, Some locked => locked
                  | _, _ => Exposure.effectiveEV exp
                  end)).
Proof.
  unfold displayedDifference, publishReading, applyAeLock. simpl.
  destruct (aeLocked st); [destruct (lockedEVRef st) |]; reflexivity.
Qed.

(** X14: what the colour of the EV line measures.  On a metered tick of
    an unlocked meter with a finite effectiveEV [e] the displayed
    difference is 0 when the smoother was unset, and [|1 - alpha| |s - e|]
    when it held [s]; so the line is green on the first tick, and with
    [0 <= alpha <= 1] it is green whenever the scene moved by less than
    0.3 EV against the smoothed value.  On a locked meter the difference
    is taken against the captured value. *)
Theorem exposureWarningColor_meaning :
  forall (referenceEV : R) (cfg : Config) (st : AppState) (b e : R),
    5 <= b <= 250 -> liveEV referenceEV cfg b = Fin e ->
    (aeLocked st = false -> smoothedEVRef st = None ->
     displayedDifference (exposure (meteringTick referenceEV cfg st b)) =
     Fin 0 /\
     exposureWarningColor (exposure (meteringTick referenceEV cfg st b)) =
     "green"%string) /\
    (forall s : R,
       aeLocked st = false -> smoothedEVRef st = Some (Fin s) ->
       displayedDifference (exposure (meteringTick referenceEV cfg st b)) =
       Fin (Rabs (1 - smoothingFactor cfg) * Rabs (s - e)) /\
       (0 <= smoothingFactor cfg <= 1 -> Rabs (s - e) < 0.3 ->
        exposureWarningColor (exposure (meteringTick referenceEV cfg st b)) =
        "green"%string)) /\
    (forall locked : num,
       aeLocked st = true -> lockedEVRef st = Some locked ->
       displayedDifference (exposure (meteringTick referenceEV cfg st b)) =
       Js.abs (Js.sub (smoothEV (smoothingFactor cfg) (smoothedEVRef st)
                         (Fin e)) locked)).
Proof.
  intros referenceEV cfg st b e Hb HE.
  rewrite meteringTick_metered by assumption.
  unfold exposureWarningColor.
  rewrite displayedDifference_publish, resolve_effectiveEV, HE.
  split; [| split].
  - intros Hl Hs. rewrite Hl, Hs. simpl.
    replace (e + - e) with 0 by ring. rewrite Rabs_R0.
    split; [reflexivity |].
    destruct (Rle_dec 0.6 0); [lra |]. destruct (Rle_dec 0.3 0); [lra |].
    reflexivity.
  - intros s Hl Hs. rewrite Hl, Hs. simpl.
    assert (Heq : Rabs (s * (1 - smoothingFactor cfg) + e * smoothingFactor cfg
                        + - e)
                  = Rabs (1 - smoothingFactor cfg) * Rabs (s - e)).
    { rewrite <- Rabs_mult. f_equal. ring. }
    rewrite Heq. split; [reflexivity |].
    intros Ha Hd.
    assert (H1 : Rabs (1 - smoothingFactor cfg) <= 1).
    { apply Rabs_le. lra. }
    assert (H0 := Rabs_pos (1 - smoothingFactor cfg)).
    assert (H2 := Rabs_pos (s - e)).
    assert (Hlt : Rabs (1 - smoothingFactor cfg) * Rabs (s - e) < 0.3) by nra.
    destruct (Rle_dec 0.6 _); [lra |]. destruct (Rle_dec 0.3 _); [lra |].
    reflexivity.
  - intros locked Hl Hr. rewrite Hl, Hr. reflexivity.
Qed.

(** X14 on the first tick of a fresh mount, brightness 128, whose
    effectiveEV is 7. *)
Lemma exposureWarningColor_meaning_witness :
  displayedDifference (exposure (meteringTick 7 sampleConfig initialState 128))
  = Fin 0 /\
  exposureWarningColor (exposure (meteringTick 7 sampleConfig initialState 128))
  = "green"%string.
Proof.
  apply (proj1 (exposureWarningColor_meaning 7 sampleConfig initialState 128 7
                  ltac:(lra) liveEV_128)); reflexivity.
Defined.

(** ** The scene description *)

Ltac scene_cases :=
  unfold getSceneDescription, Js.ge, Js.le in *;
  repeat match goal with
         | |- context [Rle_dec ?x ?y] => destruct (Rle_dec x y)
         | H : context [Rle_dec ?x ?y] |- _ => destruct (Rle_dec x y)
         end.

(** X15: [getSceneDescription] always returns one of its five texts; a
    larger EV never gets a darker description; an EV below 7, and the
    values [-Infinity] and [NaN] that the meter shows when it cannot
    meter, read "Very low light". *)
Theorem getSceneDescription_monotone :
  (forall e1 e2 : R,
     e1 <= e2 ->
     (sceneLevel (getSceneDescription (Fin e1)) <=
      sceneLevel (getSceneDescription (Fin e2)))%nat) /\
  (forall e : R,
     getSceneDescription (Fin e) = "Very low light"%string <-> e < 7) /\
  (forall e : R,
     getSceneDescription (Fin e) = "Bright outdoor (Sunny)"%string <->
     15 <= e) /\
  getSceneDescription NegInf = "Very low light"%string /\
  getSceneDescription NaN = "Very low light"%string.
Proof.
  split; [| split; [| split; [| split; reflexivity]]].
  - intros e1 e2 H. scene_cases; try (exfalso; lra);
      cbv [sceneLevel String.eqb Ascii.eqb Bool.eqb]; lia.
  - intros e. split; intros H; scene_cases;
      try reflexivity; try discriminate H; lra.
  - intros e. split; intros H; scene_cases;
      try reflexivity; try discriminate H; lra.
Qed.

(** ** The frame sampler *)

Lemma averageLuminance_sums (lum : Pixel -> R) (data : list Pixel) :
  forall (total : R) (count : nat),
    fold_left (fun (acc : R * nat) p => (fst acc + lum p, S (snd acc)))
              data (total, count) =
    (total + fold_right (fun p t => lum p + t) 0 data,
     (count + List.length data)%nat).
Proof.
  induction data as [| p rest IH]; intros total count; simpl.
  - f_equal; [ring | lia].
  - rewrite IH. f_equal; [ring | lia].
Qed.

Lemma sum_bounds (lum : Pixel -> R) (lo hi : R) (data : list Pixel) :
  (forall p : Pixel, In p data -> lo <= lum p <= hi) ->
  INR (List.length data) * lo
  <= fold_right (fun p t => lum p + t) 0 data
  <= INR (List.length data) * hi.
Proof.
  induction data as [| p rest IH]; intros H.
  - simpl. lra.
  - assert (Hp := H p (or_introl eq_refl)).
    assert (Hrest := IH (fun q Hq => H q (or_intror Hq))).
    cbn [fold_right]. change (List.length (p :: rest)) with (S (List.length rest)).
    rewrite S_INR. lra.
Qed.

(** The average of luminances that lie between two bounds lies between
    them, and the average over no pixel is 0. *)
Lemma averageLuminance_bounds (lum : Pixel -> R) (lo hi : R)
  (data : list Pixel) :
  (forall p : Pixel, In p data -> lo <= lum p <= hi) ->
  averageLuminance lum [] = 0 /\
  (data <> [] -> lo <= averageLuminance lum data <= hi).
Proof.
  intros H. split; [reflexivity |].
  intros Hne. unfold averageLuminance.
  rewrite averageLuminance_sums. simpl fst. simpl snd.
  destruct data as [| p rest]; [contradiction |].
  assert (Hs := sum_bounds lum lo hi (p :: rest) H).
  change (List.length (p :: rest)) with (S (List.length rest)) in *.
  cbv iota.
  assert (Hn : 0 < INR (S (List.length rest))) by (apply lt_0_INR; lia).
  set (n := INR (S (List.length rest))) in *.
  set (t := fold_right (fun p t => lum p + t) 0 (p :: rest)) in *.
  replace (0 + t) with t by ring.
  split.
  - apply Rmult_le_reg_r with n; [assumption |].
    unfold Rdiv. rewrite Rmult_assoc, Rinv_l by lra. lra.
  - apply Rmult_le_reg_r with n; [assumption |].
    unfold Rdiv. rewrite Rmult_assoc, Rinv_l by lra. lra.
Qed.

Lemma exp_nonpos (t : R) : t <= 0 -> exp t <= 1.
Proof.
  intros Ht. destruct (Req_dec_T t 0) as [-> | Hne]; [rewrite exp_0; lra |].
  rewrite <- exp_0. apply Rlt_le, exp_increasing. lra.
Qed.

(** [linearize] maps the channel values 0..255 into 0..1. *)
Lemma linearize_range (c : R) : 0 <= c <= 255 -> 0 <= linearize c <= 1.
Proof.
  intros Hc. unfold linearize. cbv zeta.
  assert (Hc' : 0 <= c / 255 <= 1) by lra.
  destruct (Rle_dec (c / 255) 0.04045) as [Hlow | Hhigh].
  - lra.
  - set (y := (c / 255 + 0.055) / 1.055).
    assert (Hy : 0 < y <= 1) by (unfold y; lra).
    unfold Rpower. split; [apply Rlt_le, exp_pos |].
    apply exp_nonpos.
    assert (Hln := ln_le_minus_1 y (proj1 Hy)). nra.
Qed.

Lemma luminance_range (p : Pixel) : 0 <= luminance p <= 255.
Proof.
  unfold luminance.
  assert (Hr := linearize_range _ (IZR_channel_range (red p))).
  assert (Hg := linearize_range _ (IZR_channel_range (green p))).
  assert (Hb := linearize_range _ (IZR_channel_range (blue p))).
  lra.
Qed.

Lemma direct_luminance_range (p : Pixel) : 0 <= ZoneVariant.luminance p <= 255.
Proof.
  unfold ZoneVariant.luminance.
  assert (Hr := IZR_channel_range (red p)).
  assert (Hg := IZR_channel_range (green p)).
  assert (Hb := IZR_channel_range (blue p)).
  lra.
Qed.

Lemma computeBrightness_cases (video : Video) (data : list Pixel) :
  computeBrightness video data =
  if videoReady video then averageLuminance luminance data else 0.
Proof.
  unfold computeBrightness, videoReady.
  destruct (readyState video =? 4)%Z, (paused video),
    (videoWidth video =? 0)%N, (videoHeight video =? 0)%N; reflexivity.
Qed.

Lemma direct_computeBrightness_cases (video : Video) (data : list Pixel) :
  ZoneVariant.computeBrightness video data =
  if videoReady video then averageLuminance ZoneVariant.luminance data else 0.
Proof.
  unfold ZoneVariant.computeBrightness, videoReady.
  destruct (readyState video =? 4)%Z, (paused video),
    (videoWidth video =? 0)%N, (videoHeight video =? 0)%N; reflexivity.
Qed.

(** X16: [computeBrightness], in both variants, returns a brightness
    between 0 and 255; it returns 0 when the video has not loaded data,
    is paused or has no size, and for an empty region; and on a region
    whose pixels all have the luminance [L] it returns [L]. *)
Theorem computeBrightness_range :
  forall (video : Video) (regionData : list Pixel),
    0 <= computeBrightness video regionData <= 255 /\
    0 <= ZoneVariant.computeBrightness video regionData <= 255 /\
    (videoReady video = false \/ regionData = [] ->
     computeBrightness video regionData = 0 /\
     ZoneVariant.computeBrightness video regionData = 0) /\
    (forall L : R,
       videoReady video = true -> regionData <> [] ->
       (forall p : Pixel, In p regionData -> luminance p = L) ->
       computeBrightness video regionData = L) /\
    (forall L : R,
       videoReady video = true -> regionData <> [] ->
       (forall p : Pixel, In p regionData -> ZoneVariant.luminance p = L) ->
       ZoneVariant.computeBrightness video regionData = L).
Proof.
  intros video data.
  rewrite computeBrightness_cases, direct_computeBrightness_cases.
  assert (H1 := averageLuminance_bounds luminance 0 255 data
                  (fun p _ => luminance_range p)).
  assert (H2 := averageLuminance_bounds ZoneVariant.luminance 0 255 data
                  (fun p _ => direct_luminance_range p)).
  destruct H1 as [E1 B1]. destruct H2 as [E2 B2].
  assert (Hd : {data = []} + {data <> []}).
  { destruct data; [now left | right; discriminate]. }
  split; [| split; [| split; [| split]]].
  - destruct (videoReady video); [| lra].
    destruct Hd as [-> | Hne]; [rewrite E1; lra | now apply B1].
  - destruct (videoReady video); [| lra].
    destruct Hd as [-> | Hne]; [rewrite E2; lra | now apply B2].
  - intros [Hv | Hnil].
    + rewrite Hv. split; reflexivity.
    + subst data. destruct (videoReady video); split; reflexivity.
  - intros L Hv Hne HL. rewrite Hv.
    assert (HB := averageLuminance_bounds luminance L L data).
    destruct HB as [_ HB]; [intros p Hp; rewrite (HL p Hp); lra |].
    specialize (HB Hne). lra.
  - intros L Hv Hne HL. rewrite Hv.
    assert (HB := averageLuminance_bounds ZoneVariant.luminance L L data).
    destruct HB as [_ HB]; [intros p Hp; rewrite (HL p Hp); lra |].
    specialize (HB Hne). lra.
Qed.

(** ** More on the histogram *)

Lemma bump_nth (j k : nat) (h : list nat) :
  (j < List.length h)%nat ->
  nth k (bump j h) O = (nth k h O + (if Nat.eqb j k then 1 else 0))%nat.
Proof.
  revert j k. induction h as [| c rest IH]; intros j k Hj; simpl in Hj; [lia |].
  destruct j, k; simpl; try lia.
  apply IH. lia.
Qed.

Lemma increment_nth (h : list nat) (j : Z) (k : nat) :
  (0 <= j < Z.of_nat (List.length h))%Z ->
  nth k (increment h j) O =
  (nth k h O + (if (j =? Z.of_nat k)%Z then 1 else 0))%nat.
Proof.
  intros Hj. destruct (increment_inside h j Hj) as [E _]. rewrite E.
  rewrite bump_nth by lia.
  destruct (Nat.eqb_spec (Z.to_nat j) k) as [He | He];
    destruct (Z.eqb_spec j (Z.of_nat k)) as [Hz | Hz]; try reflexivity; lia.
Qed.

Lemma scanPixels_bins (bin : Pixel -> Z) (k : nat) :
  (forall p : Pixel, (0 <= bin p <= 255)%Z) ->
  forall (data : list Pixel) (pixelIndex : nat) (h : list nat),
    slots256 h ->
    nth k (scanPixels (fun h p => increment h (bin p)) pixelIndex data h) O =
    (nth k h O + binCount bin k (sampledPixels pixelIndex data))%nat.
Proof.
  intros Hbin. unfold binCount.
  induction data as [| p rest IH]; intros pixelIndex h Hh.
  - simpl. lia.
  - simpl. destruct (Nat.even pixelIndex).
    + destruct (increment_byte h (bin p) Hh (Hbin p)) as [Hh' _].
      rewrite (IH (S pixelIndex) _ Hh').
      rewrite increment_nth by (rewrite Hh; specialize (Hbin p); lia).
      simpl. destruct (bin p =? Z.of_nat k)%Z; simpl; lia.
    + now apply IH.
Qed.

Lemma scanPixels_channels (data : list Pixel) :
  forall (pixelIndex : nat) (r g b : list nat),
    scanPixels
      (fun (h : list nat * list nat * list nat) p =>
         let '(r, g, b) := h in
         (increment r (channel (red p)),
          increment g (channel (green p)),
          increment b (channel (blue p))))
      pixelIndex data (r, g, b) =
    (scanPixels (fun h p => increment h (channel (red p))) pixelIndex data r,
     scanPixels (fun h p => increment h (channel (green p))) pixelIndex data g,
     scanPixels (fun h p => increment h (channel (blue p))) pixelIndex data b).
Proof.
  induction data as [| p rest IH]; intros pixelIndex r g b; [reflexivity |].
  simpl. destruct (Nat.even pixelIndex); apply IH.
Qed.

(** X17: what a bin holds.  In the combined mode, bin [k] of the
    histogram is the number of sampled pixels (those with an even index)
    whose adjusted brightness is [k]; in the separate mode, bin [k] of a
    channel histogram is the number of sampled pixels whose byte of that
    channel is [k]. *)
Theorem histogram_bins :
  forall (data : list Pixel) (compensation : R) (k : nat),
    nth k (combinedHistogram compensation data) O =
    binCount (adjustedBrightness compensation) k (sampledPixels 0 data) /\
    nth k (fst (fst (separateHistograms data))) O =
    binCount (fun p => channel (red p)) k (sampledPixels 0 data) /\
    nth k (snd (fst (separateHistograms data))) O =
    binCount (fun p => channel (green p)) k (sampledPixels 0 data) /\
    nth k (snd (separateHistograms data)) O =
    binCount (fun p => channel (blue p)) k (sampledPixels 0 data) /\
    List.length (sampledPixels 0 data) = sampledCount (List.length data).
Proof.
  intros data compensation k.
  assert (Hempty : nth k emptyHistogram O = O).
  { unfold emptyHistogram. apply nth_repeat. }
  split; [| split; [| split; [| split]]].
  - unfold combinedHistogram.
    rewrite (scanPixels_bins (adjustedBrightness compensation) k
               (adjustedBrightness_range compensation) data 0
               emptyHistogram emptyHistogram_length).
    now rewrite Hempty.
  - unfold separateHistograms. rewrite scanPixels_channels. simpl fst.
    rewrite (scanPixels_bins (fun p => channel (red p)) k
               (fun p => channel_range (red p)) data 0
               emptyHistogram emptyHistogram_length).
    now rewrite Hempty.
  - unfold separateHistograms. rewrite scanPixels_channels. simpl fst. simpl snd.
    rewrite (scanPixels_bins (fun p => channel (green p)) k
               (fun p => channel_range (green p)) data 0
               emptyHistogram emptyHistogram_length).
    now rewrite Hempty.
  - unfold separateHistograms. rewrite scanPixels_channels. simpl snd.
    rewrite (scanPixels_bins (fun p => channel (blue p)) k
               (fun p => channel_range (blue p)) data 0
               emptyHistogram emptyHistogram_length).
    now rewrite Hempty.
  - rewrite <- sampledCount_spec. unfold sampledFrom.
    generalize 0%nat. induction data as [| p rest IH]; intros start;
      [reflexivity |].
    cbn [sampledPixels List.length]. rewrite <- cons_seq. cbn [filter].
    destruct (Nat.even start); cbn [List.length]; now rewrite IH.
Qed.

(** ** Compensation and the bin of a pixel *)



Lemma round_integer (n : Z) : Js.round (IZR n) = n.
Proof. unfold Js.round. apply Zfloor_eq. lra. Qed.



(** ** Drawing the bars *)

Lemma maxCount_spec (h : list nat) :
  (1 <= maxCount h)%nat /\
  (forall i : nat, (nth i h O <= maxCount h)%nat) /\
  (binTotal h <> O -> exists i : nat,
      (i < List.length h)%nat /\ nth i h O = maxCount h).
Proof.
  unfold maxCount.
  assert (Hle : forall i : nat, (nth i h O <= list_max h)%nat).
  { intros i. destruct (Nat.lt_ge_cases i (List.length h)) as [Hi | Hi].
    - assert (Hall := proj1 (list_max_le h (list_max h)) (Nat.le_refl _)).
      rewrite Forall_forall in Hall. apply Hall. now apply nth_In.
    - rewrite nth_overflow by assumption. lia. }
  split; [destruct (list_max h); lia |].
  split; [intros i; specialize (Hle i); destruct (list_max h); lia |].
  intros Hne.
  assert (Hex : forall l : list nat,
             list_max l <> O ->
             exists i : nat, (i < List.length l)%nat /\ nth i l O = list_max l).
  { induction l as [| c rest IH]; intros Hm; [now contradiction Hm |].
    simpl in Hm |- *.
    destruct (Nat.le_ge_cases (list_max rest) c) as [Hc | Hc].
    - exists O. split; [lia |]. simpl. lia.
    - destruct (Nat.eq_dec (list_max rest) O) as [H0 | H0]; [exists O; simpl; lia |].
      destruct (IH H0) as [i [Hi Hn]]. exists (S i). split; [lia |].
      simpl. lia. }
  assert (Hm : list_max h <> O).
  { intros H0. apply Hne. unfold binTotal.
    assert (Hall := proj1 (list_max_le h O) ltac:(lia)).
    clear -Hall. induction Hall as [| c rest Hc _ IH]; [reflexivity |].
    simpl. lia. }
  destruct (Hex h Hm) as [i [Hi Hn]]. exists i. split; [assumption |].
  rewrite Hn. destruct (list_max h); [contradiction | reflexivity].
Qed.

Lemma binHeight_range (h : list nat) (i : nat) :
  0 <= binHeight h i <= histHeight.
Proof.
  destruct (maxCount_spec h) as [H1 [Hle _]]. specialize (Hle i).
  unfold binHeight, histHeight.
  assert (Hm : 0 < INR (maxCount h)) by (apply lt_0_INR; lia).
  assert (Hn : 0 <= INR (nth i h O)) by apply pos_INR.
  assert (Hnm : INR (nth i h O) <= INR (maxCount h)) by now apply le_INR.
  assert (Hq : 0 <= INR (nth i h O) / INR (maxCount h) <= 1).
  { split.
    - apply Rmult_le_pos; [assumption |]. apply Rlt_le. now apply Rinv_0_lt_compat.
    - apply Rmult_le_reg_r with (INR (maxCount h)); [assumption |].
      unfold Rdiv. rewrite Rmult_assoc, Rinv_l by lra. lra. }
  lra.
Qed.

(** X19: the bars stay on the canvas.  [maxCount] is never 0, so no
    height divides by zero; every bar of the combined mode (bins 0 to
    255) lies inside the 320 by 150 canvas and stands on its lower edge;
    when a pixel was sampled, some bar has the full height; and in the
    separate mode the bars of the three channels lie in three consecutive
    thirds of the canvas. *)
Theorem histogram_bars_on_canvas :
  forall (histogram : list nat) (i : nat),
    (i < 256)%nat ->
    (1 <= maxCount histogram)%nat /\
    0 <= rectX (combinedBar histogram i) /\
    rectX (combinedBar histogram i) + rectWidth (combinedBar histogram i)
    <= histWidth /\
    0 <= rectY (combinedBar histogram i) /\
    rectY (combinedBar histogram i) + rectHeight (combinedBar histogram i)
    = histHeight /\
    0 <= rectHeight (combinedBar histogram i) /\
    (binTotal histogram <> O ->
     exists j : nat, (j < List.length histogram)%nat /\
       rectHeight (combinedBar histogram j) = histHeight) /\
    (forall slice : nat,
       (slice < 3)%nat ->
       INR slice * sliceWidth <= rectX (channelBar slice histogram i) /\
       rectX (channelBar slice histogram i)
       + rectWidth (channelBar slice histogram i)
       <= INR (S slice) * sliceWidth /\
       INR (S slice) * sliceWidth <= histWidth /\
       0 <= rectY (channelBar slice histogram i) /\
       rectY (channelBar slice histogram i)
       + rectHeight (channelBar slice histogram i) = histHeight).
Proof.
  intros h i Hi.
  destruct (maxCount_spec h) as [H1 [_ Hfull]].
  assert (Hh := binHeight_range h i).
  assert (Hi0 : 0 <= INR i) by apply pos_INR.
  assert (Hi255 : INR i <= 255).
  { replace 255 with (INR 255) by (rewrite INR_IZR_INZ; reflexivity).
    apply le_INR. lia. }
  unfold combinedBar, channelBar, scaleX, sliceWidth, histWidth, histHeight in *.
  cbn [rectX rectY rectWidth rectHeight].
  split; [assumption |]. split; [lra |]. split; [lra |]. split; [lra |].
  split; [lra |]. split; [lra |]. split.
  - intros Hne. destruct (Hfull Hne) as [j [Hj Hn]]. exists j.
    split; [assumption |]. unfold binHeight, histHeight. rewrite Hn.
    assert (Hm : 0 < INR (maxCount h)) by (apply lt_0_INR; lia).
    unfold Rdiv. rewrite Rinv_r by lra. lra.
  - intros slice Hs.
    assert (Hs0 : 0 <= INR slice) by apply pos_INR.
    assert (Hs2 : INR slice <= 2).
    { replace 2 with (INR 2) by (simpl; lra). apply le_INR. lia. }
    rewrite S_INR. repeat split; lra.
Qed.

(** X19 for bin 255 of the empty histogram. *)
Lemma histogram_bars_on_canvas_witness :
  (1 <= maxCount emptyHistogram)%nat /\
  rectX (combinedBar emptyHistogram 255)
  + rectWidth (combinedBar emptyHistogram 255) <= histWidth.
Proof.
  destruct (histogram_bars_on_canvas emptyHistogram 255 ltac:(lia))
    as [H1 [_ [H2 _]]].
  split; assumption.
Defined.

(** ** More on the zone overlay *)

Lemma clampBoundaries_values (computed : list R) :
  forall st : bool * list R,
    snd (fold_left clampBoundary computed st) =
    snd st ++ map (fun b => Rmin b 255) computed.
Proof.
  induction computed as [| b rest IH]; intros st; simpl.
  - now rewrite app_nil_r.
  - rewrite IH. unfold clampBoundary, Rmin.
    destruct (Rlt_dec 255 b) as [Hb | Hb]; destruct (Rle_dec b 255) as [Hc | Hc];
      simpl; try lra; rewrite <- app_assoc; reflexivity.
Qed.

Lemma pow2_succ (x : R) : Js.pow2 (x + 1) = 2 * Js.pow2 x.
Proof.
  unfold Js.pow2. rewrite Rpower_plus, Rpower_1 by lra. ring.
Qed.

Lemma boundaries_values : boundaries = [16; 32; 64; 128; 255; 255].
Proof.
  unfold boundaries, clampBoundaries.
  rewrite clampBoundaries_values, computedBoundaries_values. simpl.
  unfold Rmin.
  repeat match goal with
         | |- context [Rle_dec ?x ?y] => destruct (Rle_dec x y); try lra
         end.
  reflexivity.
Qed.

(** X20: clamping the zone markers.  The map that builds [boundaries]
    replaces every marker by its minimum with 255, keeps their number and
    order, and changes nothing when [clipped] stays false; a zone marker
    doubles from one zone to the next; and the six boundary lines of the
    overlay all fall inside the canvas. *)
Theorem zone_boundaries_clamped :
  (forall computed : list R,
     snd (clampBoundaries computed) = map (fun b => Rmin b 255) computed /\
     List.length (snd (clampBoundaries computed)) = List.length computed /\
     Forall (fun b => b <= 255) (snd (clampBoundaries computed)) /\
     (fst (clampBoundaries computed) = false ->
      snd (clampBoundaries computed) = computed)) /\
  (forall (gray : R) (zone : Z),
     zoneBoundary gray (zone + 1) = 2 * zoneBoundary gray zone) /\
  Forall (fun x => 0 <= x < histWidth) xBoundaries.
Proof.
  split; [| split].
  - intros computed.
    assert (Hv : snd (clampBoundaries computed) =
                 map (fun b => Rmin b 255) computed).
    { unfold clampBoundaries. now rewrite clampBoundaries_values. }
    split; [exact Hv |]. split; [rewrite Hv; apply length_map |]. split.
    + rewrite Hv. apply Forall_forall. intros x Hx.
      apply in_map_iff in Hx. destruct Hx as [b [<- _]]. apply Rmin_r.
    + intros Hflag. rewrite Hv.
      assert (Hnone : ~ Exists (fun b => 255 < b) computed).
      { intros Hex.
        assert (Ht : fst (clampBoundaries computed) = true).
        { unfold clampBoundaries. apply clampBoundaries_flag. now right. }
        congruence. }
      clear Hv Hflag. induction computed as [| b rest IH]; [reflexivity |].
      simpl. rewrite IH.
      * f_equal. apply Rmin_left.
        destruct (Rle_dec b 255); [assumption |].
        exfalso. apply Hnone. apply Exists_cons_hd. lra.
      * intros H. apply Hnone. now apply Exists_cons_tl.
  - intros gray zone. unfold zoneBoundary.
    rewrite plus_IZR.
    replace (IZR zone + 1 - 5) with (IZR zone - 5 + 1) by ring.
    rewrite pow2_succ. ring.
  - unfold xBoundaries. rewrite boundaries_values.
    unfold scaleX, histWidth. simpl.
    repeat (apply Forall_cons; [lra |]). apply Forall_nil.
Qed.

(** ** The warning of the variant with the zone overlay *)

(** X21: the two variants of the warning.  The variant with the zone
    overlay warns exactly when the magnitude of the evDifference exceeds
    1; whenever it warns, the classifier of the variant with AE-lock reports
    a severe band; and the classifier reports a severe band without that
    warning only at evDifference 1 and -1. *)
Theorem exposureWarning_variants :
  forall d : R,
    (ZoneVariant.exposureWarningOf (Fin d) <> EmptyString <-> 1 < Rabs d) /\
    (ZoneVariant.exposureWarningOf (Fin d) <> EmptyString ->
     classifyExposure (Fin d) = advisory SevereUnderexposure \/
     classifyExposure (Fin d) = advisory SevereOverexposure) /\
    ((classifyExposure (Fin d) = advisory SevereUnderexposure \/
      classifyExposure (Fin d) = advisory SevereOverexposure) ->
     ZoneVariant.exposureWarningOf (Fin d) = EmptyString ->
     d = 1 \/ d = -1).
Proof.
  intros d.
  assert (Hw : ZoneVariant.exposureWarningOf (Fin d) <> EmptyString <->
               1 < Rabs d).
  { unfold ZoneVariant.exposureWarningOf. simpl.
    destruct (Rlt_dec 1 (Rabs d)) as [Hlt | Hge]; split; intros H.
    - exact Hlt.
    - discriminate.
    - now contradiction H.
    - contradiction. }
  split; [exact Hw |]. split.
  - intros H. apply Hw in H. unfold Rabs in H.
    destruct (Rcase_abs d).
    + left. unfold classifyExposure, Js.le.
      destruct (Rle_dec d (-1)); [reflexivity | lra].
    + right. decide_bands.
  - intros Hsev Hquiet.
    assert (Hn : ~ 1 < Rabs d).
    { intros H. apply Hw in H. contradiction. }
    unfold Rabs in Hn. destruct (Rcase_abs d).
    + right. destruct Hsev as [Hs | Hs].
      * unfold classifyExposure, Js.ge, Js.le in Hs.
        destruct (Rle_dec d (-1)); [lra |].
        repeat match type of Hs with
               | context [Rle_dec ?x ?y] => destruct (Rle_dec x y)
               end; discriminate Hs.
      * unfold classifyExposure, Js.ge, Js.le in Hs.
        repeat match type of Hs with
               | context [Rle_dec ?x ?y] => destruct (Rle_dec x y)
               end; try discriminate Hs; lra.
    + left. destruct Hsev as [Hs | Hs].
      * unfold classifyExposure, Js.ge, Js.le in Hs.
        repeat match type of Hs with
               | context [Rle_dec ?x ?y] => destruct (Rle_dec x y)
               end; try discriminate Hs; lra.
      * unfold classifyExposure, Js.ge, Js.le in Hs.
        repeat match type of Hs with
               | context [Rle_dec ?x ?y] => destruct (Rle_dec x y)
               end; try discriminate Hs; lra.
Qed.

(** ** Printing a shutter speed *)

(** X22: for a shutter speed 1/n with a positive whole [n], the page
    prints the denominator [n]; this covers every entry of the shutter
    list below one second. *)
Theorem shutterDenominator_round_trip :
  (forall n : Z, (0 < n)%Z -> shutterDenominator (1 / IZR n) = n) /\
  (forall s : R,
     In s standardShutterSpeeds -> s < 1 ->
     exists n : Z, (0 < n)%Z /\ s = 1 / IZR n).
Proof.
  split.
  - intros n Hn. unfold shutterDenominator.
    assert (Hr : 0 < IZR n) by now apply (IZR_lt 0).
    replace (1 / (1 / IZR n)) with (IZR n) by (field; lra).
    apply round_integer.
  - intros s Hs Hlt. unfold standardShutterSpeeds in Hs. simpl in Hs.
    destruct Hs as [<- | [<- | [<- | [<- | [<- | [<- | [<- | [<- | [<- | [<- | [<- | []]]]]]]]]]]].
    + exists 1000%Z. split; [lia | reflexivity].
    + exists 500%Z. split; [lia | reflexivity].
    + exists 250%Z. split; [lia | reflexivity].
    + exists 125%Z. split; [lia | reflexivity].
    + exists 60%Z. split; [lia | reflexivity].
    + exists 30%Z. split; [lia | reflexivity].
    + exists 15%Z. split; [lia | reflexivity].
    + exists 8%Z. split; [lia | reflexivity].
    + exists 4%Z. split; [lia | reflexivity].
    + exists 2%Z. split; [lia | reflexivity].
    + lra.
Qed.

(** ** Film presets *)

Lemma filmPresets_usable :
  Forall (fun entry => usablePreset (snd entry)) filmPresets.
Proof.
  unfold filmPresets, usablePreset.
  repeat (apply Forall_cons; [simpl; lra |]). apply Forall_nil.
Qed.

Lemma lookupPreset_in (presets : list (string * FilmPreset.t))
  (name : string) (preset : FilmPreset.t) :
  lookupPreset presets name = Some preset -> In (name, preset) presets.
Proof.
  induction presets as [| [key p] rest IH]; simpl; [discriminate |].
  destruct (String.eqb_spec key name) as [-> | Hne].
  - intros H. injection H as <-. now left.
  - intros H. right. now apply IH.
Qed.

(** X23: the film preset select.  Choosing ['custom'] changes only the
    name of the preset.  Choosing a name of [filmPresets] takes the
    calibration factor, the compensation and the two thresholds from its
    entry and leaves the other settings alone; whatever the entry, the
    factor is between 0.85 and 0.95, the compensation between 0 and 0.4,
    the lower threshold between 5 and 20 and the upper between 240 and
    255, so the calculator stays finite.  The table has 17 entries, and
    the compensation an entry sets need not be an option of the
    compensation select: 0.2, of Kodak Portra 160, is none. *)
Theorem selectFilmPreset_spec :
  forall (st : Settings) (value : string),
    (value = "custom"%string ->
     selectFilmPreset st value =
     Some {| config := config st;
             filmPreset := value;
             overExposureThreshold := overExposureThreshold st;
             underExposureThreshold := underExposureThreshold st |}) /\
    (value <> "custom"%string ->
     forall preset : FilmPreset.t,
       lookupPreset filmPresets value = Some preset ->
       exists st' : Settings,
         selectFilmPreset st value = Some st' /\
         filmPreset st' = value /\
         calibrationFactor (config st') = FilmPreset.calibrationFactor preset /\
         compensation (config st') = FilmPreset.recommendedCompensation preset /\
         overExposureThreshold st' = FilmPreset.overExposureThreshold preset /\
         underExposureThreshold st' = FilmPreset.underExposureThreshold preset /\
         iso (config st') = iso (config st) /\
         priorityMode (config st') = priorityMode (config st) /\
         chosenAperture (config st') = chosenAperture (config st) /\
         chosenShutter (config st') = chosenShutter (config st) /\
         smoothingFactor (config st') = smoothingFactor (config st) /\
         0.85 <= calibrationFactor (config st') <= 0.95 /\
         0 <= compensation (config st') <= 0.4 /\
         5 <= underExposureThreshold st' <= 20 /\
         240 <= overExposureThreshold st' <= 255) /\
    List.length filmPresets = 17%nat /\
    (forall preset : FilmPreset.t,
       lookupPreset filmPresets "Kodak Portra 160" = Some preset ->
       ~ In (FilmPreset.recommendedCompensation preset) compensationSteps).
Proof.
  intros st value. unfold selectFilmPreset.
  split; [| split; [| split; [reflexivity |]]]; cycle 2.
  { intros preset H. injection H as <-. simpl.
    unfold compensationSteps. simpl. intros Hin.
    repeat (destruct Hin as [Hin | Hin]; [lra |]). contradiction. }
  - intros ->. reflexivity.
  - intros Hne preset Hlook.
    destruct (String.eqb_spec value "custom") as [Heq | _]; [contradiction |].
    rewrite Hlook. eexists. split; [reflexivity |]. simpl.
    apply lookupPreset_in in Hlook.
    assert (Hall := filmPresets_usable). rewrite Forall_forall in Hall.
    specialize (Hall _ Hlook). unfold usablePreset in Hall. simpl in Hall.
    repeat split; try reflexivity; apply Hall.
Qed.

(** X23 for the entry of Kodak Portra 400. *)
Lemma selectFilmPreset_spec_witness :
  exists st' : Settings,
    selectFilmPreset
      {| config := sampleConfig; filmPreset := "custom";
         overExposureThreshold := 245; underExposureThreshold := 15 |}
      "Kodak Portra 400" = Some st' /\
    calibrationFactor (config st') = 0.92 /\
    compensation (config st') = 0.3.
Proof.
  destruct (proj1 (proj2 (selectFilmPreset_spec
              {| config := sampleConfig; filmPreset := "custom";
                 overExposureThreshold := 245; underExposureThreshold := 15 |}
              "Kodak Portra 400")) ltac:(discriminate)
              (FilmPreset.make 0.92 250 10 0.3
                 "Warm tones, excellent skin rendition, slight contrast boost.")
              eq_refl)
    as [st' [H1 [_ [H2 [H3 _]]]]].
  exists st'. repeat split; assumption.
Defined.
